(** * sbox process supervisor: process table, liveness, daemons and logs

    A shallow embedding of package [process] (the process manager of sbox)
    and of the command handlers of [main] that drive it, together with the
    parts of the Go runtime they rely on: [bufio.Scanner], [os.WriteFile],
    signals and the 64-bit [int]. *)

From Stdlib Require Import ZArith String Ascii List Bool Lia.
From stdpp Require Import base option list gmap strings.

Local Open Scope string_scope.
Local Open Scope list_scope.

(** ** Go's [int] on a 64-bit platform *)

Module GoInt.

Definition min_int : Z := (- 2 ^ 63)%Z.
Definition max_int : Z := (2 ^ 63 - 1)%Z.

Definition in_range (z : Z) : Prop := (min_int <= z <= max_int)%Z.

(** Two's complement wrap-around of an arithmetic result. *)
Definition wrap (z : Z) : Z := ((z + 2 ^ 63) mod 2 ^ 64 - 2 ^ 63)%Z.

Definition sub (a b : Z) : Z := wrap (a - b).

End GoInt.

(** ** [bufio.Scanner] with the [ScanLines] split function *)

Module Bufio.

(** [bufio.MaxScanTokenSize]: the largest buffer a Scanner made by
    [NewScanner] grows to. *)
Definition MaxScanTokenSize : Z := 65536%Z.

Inductive ScanError := ErrTooLong.

Definition newline : ascii := ascii_of_nat 10.
Definition carriage_return : ascii := ascii_of_nat 13.

Fixpoint string_of_rev (cs : list ascii) (acc : string) : string :=
  match cs with
  | [] => acc
  | c :: cs' => string_of_rev cs' (String c acc)
  end.

(** [dropCR] applied to a token held in reverse: a single trailing
    carriage return is dropped. *)
Definition dropCR (tok_rev : list ascii) : string :=
  match tok_rev with
  | c :: rest =>
      if Ascii.eqb c carriage_return then string_of_rev rest ""
      else string_of_rev tok_rev ""
  | [] => ""
  end.

(** The loop [for scanner.Scan() { lines = append(lines, scanner.Text()) }]
    over the bytes [data] still to be read.  [tok_rev] holds the bytes of
    the current token (reversed), [held] their number and [lines_rev] the
    tokens delivered so far.  When the buffer holds [MaxScanTokenSize]
    bytes without a line end, [Scan] gives up with [ErrTooLong]; at end of
    input a non-empty unterminated rest is one more token. *)
Fixpoint scan_loop (data : string) (tok_rev : list ascii) (held : Z)
    (lines_rev : list string) : list string * option ScanError :=
  if (MaxScanTokenSize <=? held)%Z then (rev' lines_rev, Some ErrTooLong)
  else
    match data with
    | EmptyString =>
        if (held =? 0)%Z then (rev' lines_rev, None)
        else (rev' (dropCR tok_rev :: lines_rev), None)
    | String c rest =>
        if Ascii.eqb c newline
        then scan_loop rest [] 0%Z (dropCR tok_rev :: lines_rev)
        else scan_loop rest (c :: tok_rev) (held + 1)%Z lines_rev
    end.

(** All lines a fresh Scanner delivers and the value of [scanner.Err()]
    afterwards. *)
Definition scan_lines (data : string) : list string * option ScanError :=
  scan_loop data [] 0%Z [].

(** Text made of whole lines, each closed by a newline. *)
Fixpoint unlines (ls : list string) : string :=
  match ls with
  | [] => EmptyString
  | l :: ls' => (l ++ String newline (unlines ls'))%string
  end.

Fixpoint no_newline (l : string) : bool :=
  match l with
  | EmptyString => true
  | String c l' => negb (Ascii.eqb c newline) && no_newline l'
  end.

(** The bytes of [l] pushed on [tok_rev], the way the Scanner's token grows. *)
Fixpoint rev_onto (l : string) (tok_rev : list ascii) : list ascii :=
  match l with
  | EmptyString => tok_rev
  | String c l' => rev_onto l' (c :: tok_rev)
  end.

Definition ends_with_cr (l : string) : bool :=
  match rev_onto l [] with
  | c :: _ => Ascii.eqb c carriage_return
  | [] => false
  end.

(** A line the Scanner hands back as it stands: no newline inside, no
    carriage return at its end, and short enough for the buffer. *)
Definition plain_line (l : string) : bool :=
  no_newline l && negb (ends_with_cr l)
  && (Z.of_nat (String.length l) <? MaxScanTokenSize)%Z.

End Bufio.


(** ** Package [strings]: the functions the configuration code uses *)

Module GoStrings.

(** The part of [s] before the first byte [sep] and the part after it, if
    [sep] occurs. *)
Fixpoint cut (sep : ascii) (s : string) : option (string * string) :=
  match s with
  | EmptyString => None
  | String c rest =>
      if Ascii.eqb c sep then Some (EmptyString, rest)
      else
        match cut sep rest with
        | Some (before, after) => Some (String c before, after)
        | None => None
        end
  end.

(** [strings.SplitN(s, sep, 2)] for a one-byte separator. *)
Definition SplitN2 (sep : ascii) (s : string) : list string :=
  match cut sep s with
  | Some (before, after) => [before; after]
  | None => [s]
  end.

(** [strings.Split(s, sep)] for a one-byte separator: the fields between
    the separators, one more than there are separators. *)
Fixpoint Split (sep : ascii) (s : string) : list string :=
  match s with
  | EmptyString => [EmptyString]
  | String c rest =>
      if Ascii.eqb c sep then EmptyString :: Split sep rest
      else
        match Split sep rest with
        | field :: fields => String c field :: fields
        | [] => [String c EmptyString]
        end
  end.

Fixpoint contains (sep : ascii) (s : string) : bool :=
  match s with
  | EmptyString => false
  | String c rest => Ascii.eqb c sep || contains sep rest
  end.

(** Bytes below [utf8.RuneSelf]. *)
Definition is_ascii_byte (c : ascii) : bool := (N_of_ascii c <? 128)%N.

Fixpoint is_ascii (s : string) : bool :=
  match s with
  | EmptyString => true
  | String c rest => is_ascii_byte c && is_ascii rest
  end.

Definition lower_byte (c : ascii) : ascii :=
  if ((65 <=? N_of_ascii c) && (N_of_ascii c <=? 90))%N
  then ascii_of_N (N_of_ascii c + 32)
  else c.

Fixpoint lower_bytes (s : string) : string :=
  match s with
  | EmptyString => EmptyString
  | String c rest => String (lower_byte c) (lower_bytes rest)
  end.

(** [strings.ToLower]: byte by byte on ASCII strings; any other string goes
    through [unicode.ToLower], which is left open as [unicode_lower]. *)
Definition ToLower (unicode_lower : string -> string) (s : string) : string :=
  if is_ascii s then lower_bytes s else unicode_lower s.

(** [s] without the suffix [suffix], if it ends in it. *)
Fixpoint strip_suffix (suffix s : string) : option string :=
  if String.eqb s suffix then Some EmptyString
  else
    match s with
    | EmptyString => None
    | String c rest =>
        match strip_suffix suffix rest with
        | Some stem => Some (String c stem)
        | None => None
        end
    end.

Definition HasSuffix (s suffix : string) : bool :=
  match strip_suffix suffix s with
  | Some _ => true
  | None => false
  end.

Definition TrimSuffix (s suffix : string) : string :=
  default s (strip_suffix suffix s).

End GoStrings.

(** ** Package [unicode/utf8] and the strings of [encoding/json] *)

Module Json.

Definition byte_in (lo hi : N) (c : ascii) : bool :=
  ((lo <=? N_of_ascii c) && (N_of_ascii c <=? hi))%N.

(** A continuation byte: between [locb] and [hicb]. *)
Definition continuation (c : ascii) : bool := byte_in 128 191 c.

(** What the table [first] of package utf8 says of a leading byte: a rune
    of one byte, a longer one, or no rune at all.  For a longer one, [extra]
    counts the bytes after the second, and [lo] and [hi] are the bounds
    [acceptRanges] puts on the second byte. *)
Inductive Lead :=
| Single
| Multi (extra : nat) (lo hi : N)
| Invalid.

Definition lead (c : ascii) : Lead :=
  let b := N_of_ascii c in
  if (b <? 128)%N then Single
  else if (b <? 194)%N then Invalid              (* 0x80-0xc1 *)
  else if (b <? 224)%N then Multi 0 128 191      (* 0xc2-0xdf *)
  else if (b =? 224)%N then Multi 1 160 191      (* 0xe0 *)
  else if (b <? 237)%N then Multi 1 128 191      (* 0xe1-0xec *)
  else if (b =? 237)%N then Multi 1 128 159      (* 0xed *)
  else if (b <? 240)%N then Multi 1 128 191      (* 0xee-0xef *)
  else if (b =? 240)%N then Multi 2 144 191      (* 0xf0 *)
  else if (b <? 244)%N then Multi 2 128 191      (* 0xf1-0xf3 *)
  else if (b =? 244)%N then Multi 2 128 143      (* 0xf4 *)
  else Invalid.                                  (* 0xf5-0xff *)

(** The first [n] bytes of [s] are there and are continuation bytes. *)
Fixpoint continues (n : nat) (s : string) : bool :=
  match n with
  | O => true
  | S n' =>
      match s with
      | EmptyString => false
      | String c rest => continuation c && continues n' rest
      end
  end.

(** The size [utf8.DecodeRuneInString] returns for a non-empty [s] when the
    string starts with a well-formed rune; nothing when it returns
    [(RuneError, 1)]. *)
Definition rune_size (s : string) : option nat :=
  match s with
  | EmptyString => None
  | String c0 rest =>
      match lead c0 with
      | Single => Some 1
      | Invalid => None
      | Multi extra lo hi =>
          match rest with
          | EmptyString => None
          | String c1 rest' =>
              if byte_in lo hi c1 && continues extra rest'
              then Some (S (S extra)) else None
          end
      end
  end.

(** U+FFFD, the replacement character, in UTF-8. *)
Definition replacement : string :=
  String (ascii_of_nat 239) (String (ascii_of_nat 191)
    (String (ascii_of_nat 189) EmptyString)).

(** A string after [json.Marshal] and [json.Unmarshal].  The encoder walks
    the string rune by rune and writes the escape of U+FFFD for every byte
    at which no well-formed rune starts; all its other escapes decode to
    the bytes they stand for.  [pending] counts the bytes of the current
    rune still to be copied. *)
Fixpoint round_trip (s : string) (pending : nat) : string :=
  match s with
  | EmptyString => EmptyString
  | String c rest =>
      match pending with
      | S pending' => String c (round_trip rest pending')
      | O =>
          match rune_size s with
          | Some size => String c (round_trip rest (Nat.pred size))
          | None => (replacement ++ round_trip rest 0)%string
          end
      end
  end.

Definition json_string (s : string) : string := round_trip s 0.

(** Strings the coding leaves as they are: those that are valid UTF-8. *)
Definition utf8 (s : string) : Prop := json_string s = s.

End Json.

(** ** Package [path/filepath] on Unix *)

Module Filepath.

Definition Separator : ascii := "/"%char.

(** The loop of [Clean], taken over the elements of the path (the text
    between its separators): [out] holds the elements written so far, the
    last one first.  An empty element and "." are skipped; ".." takes back
    the element written last, unless none is left to take back: then it is
    dropped on a rooted path and written out on any other. *)
Fixpoint clean_elements (rooted : bool) (elems out : list string)
    : list string :=
  match elems with
  | [] => rev out
  | e :: rest =>
      if String.eqb e "" then clean_elements rooted rest out
      else if String.eqb e "." then clean_elements rooted rest out
      else if String.eqb e ".." then
        match out with
        | top :: below =>
            if String.eqb top ".."
            then clean_elements rooted rest (e :: out)
            else clean_elements rooted rest below
        | [] =>
            if rooted then clean_elements rooted rest []
            else clean_elements rooted rest [e]
        end
      else clean_elements rooted rest (e :: out)
  end.

(** [strings.Join(elems, "/")]. *)
Fixpoint join_elements (elems : list string) : string :=
  match elems with
  | [] => EmptyString
  | [e] => e
  | e :: rest => (e ++ "/" ++ join_elements rest)%string
  end.

(** [Clean] returns the shortest path name equivalent to [path]. *)
Definition Clean (path : string) : string :=
  match path with
  | EmptyString => "."
  | String c _ =>
      let rooted := Ascii.eqb c Separator in
      let out :=
        join_elements
          (clean_elements rooted (GoStrings.Split Separator path) []) in
      if rooted then String Separator out
      else if String.eqb out "" then "." else out
  end.

(** [Join] joins the elements from the first non-empty one on with
    separators and cleans the result; all elements empty, it is empty. *)
Fixpoint Join (elem : list string) : string :=
  match elem with
  | [] => EmptyString
  | e :: rest =>
      if String.eqb e "" then Join rest else Clean (join_elements elem)
  end.

End Filepath.

(** ** Package [process]: data model and the operating system it runs on *)

Module Process.

(** A [time.Time] value: the instant and the text [Format(time.RFC3339)]
    renders it to (time zones are not modelled). *)
Record Time := { unix_nano : Z; rfc3339 : string }.

(** [ProcessInfo] represents a running sandbox process. *)
Record ProcessInfo := {
  PID : Z;
  Name : string;
  Command : string;
  StartTime : Time;
  Status : string;      (* running, stopped, crashed *)
  LogFile : string;
  Project : string
}.

Definition set_Status (s : string) (p : ProcessInfo) : ProcessInfo :=
  {| PID := PID p; Name := Name p; Command := Command p;
     StartTime := StartTime p; Status := s; LogFile := LogFile p;
     Project := Project p |}.

(** [ProcessManager] handles process lifecycle. *)
Record ProcessManager := {
  SboxDir : string;
  ProjectRoot : string;
  ProjectName : string
}.

Definition ProcessFile : string := "processes.json".
Definition LogDir : string := "logs".

(** [filepath.Join(dir, elem)]. *)
Definition filepath_Join (dir elem : string) : string :=
  Filepath.Join [dir; elem].

Definition GetProcessFile (pm : ProcessManager) : string :=
  filepath_Join (SboxDir pm) ProcessFile.

Definition GetLogDir (pm : ProcessManager) : string :=
  filepath_Join (SboxDir pm) LogDir.

Definition GetLogFile (pm : ProcessManager) (name : string) : string :=
  filepath_Join (GetLogDir pm) (name ++ ".log").

(** *** Errors *)

Inductive Error :=
| ErrReadFile                      (* os.ReadFile failed, file not absent *)
| ErrUnmarshal                     (* json.Unmarshal rejected the bytes *)
| ErrWriteFile                     (* os.WriteFile failed *)
| ErrNotFound (name : string)      (* "process '%s' not found" *)
| ErrNotRunning (name status : string)
                                   (* "process '%s' is not running (status: %s)" *)
| ErrLogDir                        (* "failed to create log directory: %w" *)
| ErrLogOpen                       (* "failed to open log file: %w" *)
| ErrStart                         (* "failed to start process: %w" *)
| ErrTrack (cause : Error)         (* "failed to track process: %w" *)
| ErrNoLogs (name : string)        (* "no logs found for '%s'" *)
| ErrOpen (path : string)          (* os.Open failed *)
| ErrScan (e : Bufio.ScanError).   (* scanner.Err() *)

Inductive Result (A : Type) :=
| Ok (a : A)
| Err (e : Error).
Arguments Ok {A} a.
Arguments Err {A} e.

(** *** Files, processes and effects *)

(** Contents of the process file: [Json ps] stands for the bytes
    [json.MarshalIndent] renders the slice [ps] to, [Raw s] for bytes
    [json.Unmarshal] rejects, among them the empty file. *)
Inductive FileData :=
| Json (ps : list ProcessInfo)
| Raw (bytes : string).

Definition json_MarshalIndent (ps : list ProcessInfo) : FileData := Json ps.

(** A record as it comes back from its JSON text: the strings have gone
    through the coding, the pid and the time are as they were. *)
Definition json_record (p : ProcessInfo) : ProcessInfo :=
  {| PID := PID p; Name := Json.json_string (Name p);
     Command := Json.json_string (Command p); StartTime := StartTime p;
     Status := Json.json_string (Status p);
     LogFile := Json.json_string (LogFile p);
     Project := Json.json_string (Project p) |}.

(** [json.Unmarshal] into a slice of records (a nil slice and an empty one
    both load as a table without records). *)
Definition json_Unmarshal (d : FileData) : option (list ProcessInfo) :=
  match d with
  | Json ps => Some (map json_record ps)
  | Raw _ => None
  end.

Inductive Signal := SIGTERM | SIGKILL.

(** What matters here of a process that signals from sbox reach: whether it
    handles or ignores SIGTERM instead of ending on it, and whether, once a
    signal ends it, its pid still answers signals when the call returns
    (the process ends asynchronously and stays a zombie until it is
    reaped). *)
Record Proc := { traps_sigterm : bool; lingers : bool }.

(** The goroutine [StartDaemon] leaves behind: it waits for the child
    [w_info] describes and owns the log handle [w_fd]. *)
Record Watcher := { w_info : ProcessInfo; w_fd : nat }.

(** Calls with an effect outside the program, in the order issued. *)
Inductive Event :=
| EvOpenTrunc (path : string) (ok : bool)  (* open O_WRONLY|O_CREATE|O_TRUNC *)
| EvWrite (path : string)
| EvClose (path : string)
| EvRename (oldpath newpath : string)
| EvKill (pid : Z) (sig : Signal) (delivered : bool)
| EvSleep (ms : Z)
| EvSpawn (pid : Z) (command : string).

(** Failures the environment may inject. *)
Record Faults := {
  read_fault : bool;    (* reading the process file fails, not with ENOENT *)
  write_fault : bool;   (* opening the process file for writing fails *)
  mkdir_fault : bool;   (* the log directory cannot be created *)
  open_fault : bool     (* the log file cannot be opened *)
}.

Record World := {
  proc_file : option FileData;     (* the file at [GetProcessFile] *)
  log_files : gmap string string;  (* log files by path *)
  handles : gmap nat string;       (* open log handles and their paths *)
  next_handle : nat;
  procs : gmap Z Proc;             (* the processes signals reach, by pid *)
  watchers : list Watcher;
  now : Time;                      (* what [time.Now()] returns *)
  faults : Faults;
  trace : list Event               (* most recent last *)
}.

Definition set_proc_file (f : option FileData) (w : World) : World :=
  {| proc_file := f; log_files := log_files w; handles := handles w;
     next_handle := next_handle w; procs := procs w;
     watchers := watchers w; now := now w; faults := faults w;
     trace := trace w |}.

Definition set_log_files (l : gmap string string) (w : World) : World :=
  {| proc_file := proc_file w; log_files := l; handles := handles w;
     next_handle := next_handle w; procs := procs w;
     watchers := watchers w; now := now w; faults := faults w;
     trace := trace w |}.

Definition set_handles (h : gmap nat string) (n : nat) (w : World) : World :=
  {| proc_file := proc_file w; log_files := log_files w; handles := h;
     next_handle := n; procs := procs w;
     watchers := watchers w; now := now w; faults := faults w;
     trace := trace w |}.

Definition set_procs (p : gmap Z Proc) (w : World) : World :=
  {| proc_file := proc_file w; log_files := log_files w;
     handles := handles w; next_handle := next_handle w; procs := p;
     watchers := watchers w; now := now w; faults := faults w;
     trace := trace w |}.

Definition set_watchers (ws : list Watcher) (w : World) : World :=
  {| proc_file := proc_file w; log_files := log_files w;
     handles := handles w; next_handle := next_handle w; procs := procs w;
     watchers := ws; now := now w; faults := faults w;
     trace := trace w |}.

Definition emit (e : Event) (w : World) : World :=
  {| proc_file := proc_file w; log_files := log_files w;
     handles := handles w; next_handle := next_handle w; procs := procs w;
     watchers := watchers w; now := now w; faults := faults w;
     trace := trace w ++ [e] |}.

(** *** [os.WriteFile] on the process file

    [os.WriteFile] opens the file with [O_WRONLY|O_CREATE|O_TRUNC], writes
    the data and closes the file: three system calls, after each of which
    another process may read the file. *)

Definition sys_open_trunc (path : string) (w : World) : World :=
  emit (EvOpenTrunc path true) (set_proc_file (Some (Raw "")) w).

Definition sys_write (path : string) (data : FileData) (w : World) : World :=
  emit (EvWrite path) (set_proc_file (Some data) w).

Definition sys_close (path : string) (w : World) : World :=
  emit (EvClose path) w.

Definition WriteFile_calls (path : string) (data : FileData)
    : list (World -> World) :=
  [sys_open_trunc path; sys_write path data; sys_close path].

Definition run_calls (calls : list (World -> World)) (w : World) : World :=
  fold_left (fun w' call => call w') calls w.

(** The worlds a concurrent reader can find while [calls] are under way:
    one after each call but the last. *)
Fixpoint states_during (calls : list (World -> World)) (w : World)
    : list World :=
  match calls with
  | [] => []
  | [_] => []
  | call :: rest => call w :: states_during rest (call w)
  end.

Definition os_WriteFile (path : string) (data : FileData) (w : World)
    : World * option Error :=
  if write_fault (faults w)
  then (emit (EvOpenTrunc path false) w, Some ErrWriteFile)
  else (run_calls (WriteFile_calls path data) w, None).

(** What a concurrent reader can find while that call is in progress. *)
Definition os_WriteFile_states (path : string) (data : FileData) (w : World)
    : list World :=
  if write_fault (faults w) then []
  else states_during (WriteFile_calls path data) w.

(** *** Signals *)

(** [process.Signal(sig)] for a real signal: fails when the signal reaches
    no process of that pid (none exists, or none sbox may signal); SIGKILL
    ends the process, SIGTERM ends it unless trapped.  A process that is
    ended and does not linger is gone when the call returns; one that
    lingers is taken away by the environment later. *)
Definition os_Signal (pid : Z) (sig : Signal) (w : World) : World * bool :=
  match procs w !! pid with
  | None => (emit (EvKill pid sig false) w, true)
  | Some p =>
      let survives :=
        match sig with
        | SIGKILL => false
        | SIGTERM => traps_sigterm p
        end in
      let w' := if survives || lingers p then w
                else set_procs (delete pid (procs w)) w in
      (emit (EvKill pid sig true) w', false)
  end.

Definition time_Sleep (ms : Z) (w : World) : World := emit (EvSleep ms) w.

(** *** The process record store *)

(** [LoadProcesses] loads all tracked processes. *)
Definition LoadProcesses (w : World) : Result (list ProcessInfo) :=
  if read_fault (faults w) then Err ErrReadFile
  else
    match proc_file w with
    | None => Ok []
    | Some data =>
        match json_Unmarshal data with
        | Some processes => Ok processes
        | None => Err ErrUnmarshal
        end
    end.

(** [SaveProcesses] saves the process list. *)
Definition SaveProcesses (pm : ProcessManager) (processes : list ProcessInfo)
    (w : World) : World * option Error :=
  os_WriteFile (GetProcessFile pm) (json_MarshalIndent processes) w.

(** The worlds another process can find the project in while
    [SaveProcesses] is under way. *)
Definition SaveProcesses_states (pm : ProcessManager)
    (processes : list ProcessInfo) (w : World) : list World :=
  os_WriteFile_states (GetProcessFile pm) (json_MarshalIndent processes) w.

(** The loop that keeps every entry whose name differs from [name]. *)
Definition without_name (name : string) (processes : list ProcessInfo)
    : list ProcessInfo :=
  List.filter (fun p => negb (String.eqb (Name p) name)) processes.

(** [AddProcess] adds a new process to tracking. *)
Definition AddProcess (pm : ProcessManager) (info : ProcessInfo) (w : World)
    : World * option Error :=
  let processes :=
    match LoadProcesses w with
    | Ok ps => ps
    | Err _ => []
    end in
  let filtered := without_name (Name info) processes in
  SaveProcesses pm (filtered ++ [info]) w.

(** [RemoveProcess] removes a process from tracking. *)
Definition RemoveProcess (pm : ProcessManager) (name : string) (w : World)
    : World * option Error :=
  match LoadProcesses w with
  | Err e => (w, Some e)
  | Ok processes => SaveProcesses pm (without_name name processes) w
  end.

(** [GetProcess] gets a specific process by name. *)
Definition GetProcess (name : string) (w : World) : Result ProcessInfo :=
  match LoadProcesses w with
  | Err e => Err e
  | Ok processes =>
      match List.find (fun p => String.eqb (Name p) name) processes with
      | Some p => Ok p
      | None => Err (ErrNotFound name)
      end
  end.

(** *** Liveness and reconciliation *)

(** [IsProcessRunning]: [os.FindProcess] always succeeds on Unix; signal 0
    then succeeds exactly when it reaches a process of that pid, be it
    running or ended and not yet reaped. *)
Definition IsProcessRunning (pid : Z) (w : World) : bool :=
  match procs w !! pid with
  | Some _ => true
  | None => false
  end.

Definition is_running (p : ProcessInfo) : bool :=
  String.eqb (Status p) "running".

(** The loop of [UpdateProcessStatus]: the slice after the in-place
    updates and the flag [updated]. *)
Fixpoint reconcile (w : World) (processes : list ProcessInfo)
    : list ProcessInfo * bool :=
  match processes with
  | [] => ([], false)
  | p :: rest =>
      let '(rest', updated) := reconcile w rest in
      if is_running p && negb (IsProcessRunning (PID p) w)
      then (set_Status "stopped" p :: rest', true)
      else (p :: rest', updated)
  end.

(** [UpdateProcessStatus] updates the status of all tracked processes. *)
Definition UpdateProcessStatus (pm : ProcessManager) (w : World)
    : World * Result (list ProcessInfo) :=
  match LoadProcesses w with
  | Err e => (w, Err e)
  | Ok processes =>
      let '(processes', updated) := reconcile w processes in
      let w' := if updated then fst (SaveProcesses pm processes' w) else w in
      (w', Ok processes')
  end.

(** [GetRunningProcesses] returns only running processes. *)
Definition GetRunningProcesses (pm : ProcessManager) (w : World)
    : World * Result (list ProcessInfo) :=
  match UpdateProcessStatus pm w with
  | (w', Err e) => (w', Err e)
  | (w', Ok processes) =>
      (w', Ok (List.filter
                 (fun p => is_running p && IsProcessRunning (PID p) w')
                 processes))
  end.

(** The loops that set the first matching entry to "stopped" and break. *)
Fixpoint stop_first (matches : ProcessInfo -> bool)
    (processes : list ProcessInfo) : list ProcessInfo :=
  match processes with
  | [] => []
  | p :: rest =>
      if matches p then set_Status "stopped" p :: rest
      else p :: stop_first matches rest
  end.

(** [StopProcess] stops a running process. *)
Definition StopProcess (pm : ProcessManager) (name : string) (w : World)
    : World * option Error :=
  match GetProcess name w with
  | Err e => (w, Some e)
  | Ok info =>
      if negb (is_running info)
      then (w, Some (ErrNotRunning name (Status info)))
      else
        (* os.FindProcess does not fail on Unix *)
        (* Try graceful shutdown first (SIGTERM) *)
        let '(w1, failed) := os_Signal (PID info) SIGTERM w in
        (* If SIGTERM fails, try SIGKILL *)
        let w2 := if failed then fst (os_Signal (PID info) SIGKILL w1)
                  else w1 in
        (* Wait a bit for process to terminate *)
        let w3 := time_Sleep 100 w2 in
        (* Update status *)
        let processes :=
          match LoadProcesses w3 with
          | Ok ps => ps
          | Err _ => []
          end in
        let processes' :=
          stop_first (fun p => String.eqb (Name p) name) processes in
        (fst (SaveProcesses pm processes' w3), None)
  end.

(** *** The daemon launcher *)

Definition nl : string := String Bufio.newline "".

(** [fmt.Fprintf(logFd, ...)] on a handle opened with [O_APPEND]. *)
Definition append_log (path text : string) (w : World) : World :=
  set_log_files
    (<[path := (default "" (log_files w !! path) ++ text)%string]>
       (log_files w)) w.

(** [os.OpenFile(logFile, O_CREATE|O_WRONLY|O_APPEND, 0644)]. *)
Definition open_log (path : string) (w : World) : World * nat :=
  let fd := next_handle w in
  (set_handles (<[fd := path]> (handles w)) (S fd) (append_log path "" w),
   fd).

Definition close_handle (fd : nat) (w : World) : World :=
  set_handles (delete fd (handles w)) (next_handle w) w.

Definition startup_header (command workdir : string) (w : World)
    : list string :=
  [ (nl ++ "=== sbox daemon started at " ++ rfc3339 (now w) ++ " ===" ++ nl)%string;
    ("Command: " ++ command ++ nl)%string;
    ("Workdir: " ++ workdir ++ nl)%string;
    ("=========================================" ++ nl ++ nl)%string ].

(** The body of the goroutine once [cmd.Wait()] has returned. *)
Definition watcher_exit (pm : ProcessManager) (wt : Watcher) (w : World)
    : World :=
  let w1 := close_handle (w_fd wt) w in
  (* Update process status when it exits *)
  let processes :=
    match LoadProcesses w1 with
    | Ok ps => ps
    | Err _ => []
    end in
  let processes' :=
    stop_first (fun p => (PID p =? PID (w_info wt))%Z) processes in
  fst (SaveProcesses pm processes' w1).

(** [StartDaemon] starts a command as a background daemon with logging.
    [child] is what [cmd.Start()] yields: nothing when the command cannot
    be started, else the pid of the new process and the process itself. *)
Definition StartDaemon (pm : ProcessManager) (name command : string)
    (env : list string) (workdir : string) (child : option (Z * Proc))
    (w : World) : World * Result ProcessInfo :=
  if mkdir_fault (faults w) then (w, Err ErrLogDir)
  else
    let logFile := GetLogFile pm name in
    (* Open log file for writing *)
    if open_fault (faults w) then (w, Err ErrLogOpen)
    else
      let '(w1, logFd) := open_log logFile w in
      (* Write startup header *)
      let w2 :=
        fold_left (fun w' line => append_log logFile line w')
                  (startup_header command workdir w1) w1 in
      (* Start the process *)
      match child with
      | None => (close_handle logFd w2, Err ErrStart)
      | Some (pid, proc) =>
          let w3 :=
            emit (EvSpawn pid command)
                 (set_procs (<[pid := proc]> (procs w2)) w2) in
          let info :=
            {| PID := pid; Name := name; Command := command;
               StartTime := now w3; Status := "running";
               LogFile := logFile; Project := ProjectName pm |} in
          (* Track the process *)
          match AddProcess pm info w3 with
          | (w4, Some e) => (w4, Err (ErrTrack e))
          | (w4, None) =>
              (* Start a goroutine to wait for process and update status *)
              (set_watchers
                 (watchers w4 ++ [{| w_info := info; w_fd := logFd |}]) w4,
               Ok info)
          end
      end.

(** *** The log reader *)

(** [tailLines] reads the last n lines from a file; the lines it prints
    and the error it returns. *)
Definition tailLines (filename : string) (n : Z) (w : World)
    : list string * option Error :=
  match log_files w !! filename with
  | None => ([], Some (ErrOpen filename))
  | Some data =>
      (* Read all lines *)
      let '(lines, scan_err) := Bufio.scan_lines data in
      (* Print last n lines *)
      let start := GoInt.sub (Z.of_nat (length lines)) n in
      let start := if (start <? 0)%Z then 0%Z else start in
      (drop (Z.to_nat start) lines, ErrScan <$> scan_err)
  end.

Inductive LogsOutcome :=
| Printed (out : list string) (err : option Error)
| Following (filename : string).   (* the endless polling of [tailFollow] *)

(** [tailFollow] follows a log file like tail -f: it never returns. *)
Definition tailFollow (filename : string) (w : World) : LogsOutcome :=
  match log_files w !! filename with
  | None => Printed [] (Some (ErrOpen filename))
  | Some _ => Following filename
  end.

(** [ReadLogs] reads the last n lines from a log file. *)
Definition ReadLogs (pm : ProcessManager) (name : string) (lines : Z)
    (follow : bool) (w : World) : LogsOutcome :=
  let logFile := GetLogFile pm name in
  match log_files w !! logFile with
  | None => Printed [] (Some (ErrNoLogs name))
  | Some _ =>
      if follow then tailFollow logFile w
      else let '(out, err) := tailLines logFile lines w in Printed out err
  end.

End Process.

(** ** Package [main]: the command handlers that drive the process manager *)

Module Cmd.

Import Process.

(** The messages of [console.Fatal], which ends the program. *)
Inductive Fatal :=
| FatalAlreadyRunning (name : string) (pid : Z)
    (* "Process '%s' is already running (PID: %d). Use 'sbox stop %s' first." *)
| FatalNoCommand          (* "No command specified and no default cmd in config" *)
| FatalStartDaemon (e : Error)   (* "Failed to start daemon: %s" *)
| FatalProcessList (e : Error)   (* "Failed to get process list: %s" *)
| FatalError (e : Error).        (* "%s" *)

Inductive Exit (A : Type) :=
| Return (a : A)
| Die (f : Fatal).
Arguments Return {A} a.
Arguments Die {A} f.

Inductive RunResult :=
| DaemonStarted (info : ProcessInfo)
| Foreground (command : string).     (* handed to [runner.Run] *)

(** The name of the daemon: the project's when the flag is empty. *)
Definition daemon_name (pm : ProcessManager) (name : string) : string :=
  if String.eqb name "" then ProjectName pm else name.

(** [runRun] once the project, its configuration and the runner are
    loaded.  [cfg_cmd] is [r.Config.Cmd]; [env] and [workdir] are what
    [r.BuildEnv()] and [r.ResolveWorkdir()] return. *)
Definition runRun (pm : ProcessManager) (detach : bool)
    (name command cfg_cmd : string) (env : list string) (workdir : string)
    (child : option (Z * Proc)) (w : World) : World * Exit RunResult :=
  let name := daemon_name pm name in
  if detach then
    (* Check if already running *)
    let already :=
      match GetProcess name w with
      | Ok existing =>
          if is_running existing && IsProcessRunning (PID existing) w
          then Some (PID existing) else None
      | Err _ => None
      end in
    match already with
    | Some pid => (w, Die (FatalAlreadyRunning name pid))
    | None =>
        let cmdToRun := if String.eqb command "" then cfg_cmd else command in
        if String.eqb cmdToRun "" then (w, Die FatalNoCommand)
        else
          match StartDaemon pm name cmdToRun env workdir child w with
          | (w', Err e) => (w', Die (FatalStartDaemon e))
          | (w', Ok info) => (w', Return (DaemonStarted info))
          end
    end
  else (w, Return (Foreground command)).

(** [runPs]: the processes it lists. *)
Definition runPs (pm : ProcessManager) (showAll : bool) (w : World)
    : World * Exit (list ProcessInfo) :=
  let '(w', r) :=
    if showAll then UpdateProcessStatus pm w
    else GetRunningProcesses pm w in
  match r with
  | Err e => (w', Die (FatalProcessList e))
  | Ok processes => (w', Return processes)
  end.

(** The loop of [runStop --all]: one report per process, an error or a
    success. *)
Fixpoint stop_each (pm : ProcessManager) (processes : list ProcessInfo)
    (w : World) : World * list (string * option Error) :=
  match processes with
  | [] => (w, [])
  | p :: rest =>
      let '(w1, err) := StopProcess pm (Name p) w in
      let '(w2, reports) := stop_each pm rest w1 in
      (w2, (Name p, err) :: reports)
  end.

(** [runStop]; [arg] is the name given on the command line, if any. *)
Definition runStop (pm : ProcessManager) (stopAll : bool)
    (arg : option string) (w : World)
    : World * Exit (list (string * option Error)) :=
  if stopAll then
    match GetRunningProcesses pm w with
    | (w', Err e) => (w', Die (FatalProcessList e))
    | (w', Ok processes) =>
        let '(w'', reports) := stop_each pm processes w' in
        (w'', Return reports)
    end
  else
    let name := default (ProjectName pm) arg in
    match StopProcess pm name w with
    | (w', Some e) => (w', Die (FatalError e))
    | (w', None) => (w', Return [(name, None)])
    end.

(** The process counts [runStatus] reports: running and total. *)
Definition runStatus (pm : ProcessManager) (w : World)
    : World * (nat * nat) :=
  let '(w', running) := GetRunningProcesses pm w in
  let runningProcesses :=
    match running with
    | Ok ps => ps
    | Err _ => []
    end in
  let allProcesses :=
    match LoadProcesses w' with
    | Ok ps => ps
    | Err _ => []
    end in
  (w', (length runningProcesses, length allProcesses)).

(** The ways [runRestart] ends the program. *)
Inductive RestartFatal :=
| RestartNotFound (name : string)   (* "Process '%s' not found" *)
| RestartConfig                     (* "Failed to load config: %s" *)
| RestartFailed (e : Error).        (* "Failed to start: %s" *)

(** [runRestart]; [arg] is the name given on the command line, if any, and
    [runner] what [runner.New] yields: nothing when the configuration does
    not load, else the results of [r.BuildEnv()] and [r.ResolveWorkdir()]. *)
Definition runRestart (pm : ProcessManager) (arg : option string)
    (runner : option (list string * string)) (child : option (Z * Proc))
    (w : World) : World * (RestartFatal + ProcessInfo) :=
  let name := default (ProjectName pm) arg in
  (* Get existing process info *)
  match GetProcess name w with
  | Err _ => (w, inl (RestartNotFound name))
  | Ok existing =>
      let command := Command existing in
      (* Stop if running *)
      let w1 :=
        if is_running existing && IsProcessRunning (PID existing) w
        then
          (* Wait a bit for process to fully stop *)
          time_Sleep 500 (StopProcess pm name w).1
        else w in
      (* Start again *)
      match runner with
      | None => (w1, inl RestartConfig)
      | Some (env, workdir) =>
          match StartDaemon pm name command env workdir child w1 with
          | (w2, Err e) => (w2, inl (RestartFailed e))
          | (w2, Ok info) => (w2, inr info)
          end
      end
  end.

End Cmd.

(** ** The supervisor as a transition system *)

Module System.

Import Process.

(** A fresh project: no process file yet, nothing launched. *)
Definition initial (w : World) : Prop :=
  proc_file w = None /\ watchers w = [] /\ handles w = ∅ /\ trace w = [].

(** One step: an operation of the process manager, a watcher whose child
    has terminated, or the environment (processes come and go, children
    write to their logs, time passes, faults appear and vanish), which
    leaves the process file, the watchers and the handles alone.  [named]
    says which names records are added and daemons started under. *)
Inductive step (pm : ProcessManager) (named : string -> Prop)
    : World -> World -> Prop :=
| step_AddProcess info w :
    named (Name info) ->
    step pm named w (AddProcess pm info w).1
| step_RemoveProcess name w :
    step pm named w (RemoveProcess pm name w).1
| step_UpdateProcessStatus w :
    step pm named w (UpdateProcessStatus pm w).1
| step_GetRunningProcesses w :
    step pm named w (GetRunningProcesses pm w).1
| step_StopProcess name w :
    step pm named w (StopProcess pm name w).1
| step_StartDaemon name command env workdir child w :
    named name ->
    (forall pid proc, child = Some (pid, proc) -> procs w !! pid = None) ->
    step pm named w (StartDaemon pm name command env workdir child w).1
| step_watcher i wt w :
    watchers w !! i = Some wt ->
    procs w !! PID (w_info wt) = None ->
    step pm named w
      (set_watchers (delete i (watchers w)) (watcher_exit pm wt w))
| step_environment w w' :
    proc_file w' = proc_file w ->
    watchers w' = watchers w ->
    handles w' = handles w ->
    next_handle w' = next_handle w ->
    step pm named w w'.

(** The worlds the steps lead to, under any names at all and under names
    that are valid UTF-8. *)
Definition reachable (pm : ProcessManager) (w : World) : Prop :=
  exists w0, initial w0 /\ rtc (step pm (fun _ => True)) w0 w.


(** The records of the stored table as they load, whether or not the file
    can be read now. *)
Definition stored (w : World) : list ProcessInfo :=
  match proc_file w with
  | Some (Json ps) => map json_record ps
  | _ => []
  end.

(** At most one record per name. *)
Definition unique_names (ps : list ProcessInfo) : Prop :=
  NoDup (map Name ps).

(** A record is stale when it says "running" and the probe finds its pid
    dead; reconciliation settles it to "stopped". *)
Definition stale (w : World) (p : ProcessInfo) : bool :=
  is_running p && negb (IsProcessRunning (PID p) w).

Definition settle (w : World) (p : ProcessInfo) : ProcessInfo :=
  if stale w p then set_Status "stopped" p else p.


Definition count_name (name : string) (ps : list ProcessInfo) : nat :=
  length (List.filter (fun p => String.eqb (Name p) name) ps).

(** [ps'] holds the records of [ps] in their places, each one as it was or
    with its status set to "stopped". *)
Definition only_stopped (ps ps' : list ProcessInfo) : Prop :=
  Forall2 (fun p p' => p' = p \/ p' = set_Status "stopped" p) ps ps'.

(** A world that differs from [w] in its log files at most. *)
Definition logs_apart (w w' : World) : Prop :=
  proc_file w' = proc_file w /\ faults w' = faults w /\ procs w' = procs w /\
  watchers w' = watchers w /\ trace w' = trace w /\ now w' = now w /\
  handles w' = handles w /\ next_handle w' = next_handle w.

(** The two status values the process manager writes. *)
Definition known_status (p : ProcessInfo) : Prop :=
  Status p = "running" \/ Status p = "stopped".

(** The steps that go through the launcher: records enter the table by
    [StartDaemon] only, not by a bare [AddProcess]; a watcher may run at any
    time and the environment may change all but the process file. *)
Inductive managed_step (pm : ProcessManager) : World -> World -> Prop :=
| managed_RemoveProcess name w :
    managed_step pm w (RemoveProcess pm name w).1
| managed_UpdateProcessStatus w :
    managed_step pm w (UpdateProcessStatus pm w).1
| managed_GetRunningProcesses w :
    managed_step pm w (GetRunningProcesses pm w).1
| managed_StopProcess name w :
    managed_step pm w (StopProcess pm name w).1
| managed_StartDaemon name command env workdir child w :
    managed_step pm w (StartDaemon pm name command env workdir child w).1
| managed_watcher i wt w :
    watchers w !! i = Some wt ->
    managed_step pm w
      (set_watchers (delete i (watchers w)) (watcher_exit pm wt w))
| managed_environment w w' :
    proc_file w' = proc_file w ->
    managed_step pm w w'.

Definition managed (pm : ProcessManager) (w : World) : Prop :=
  exists w0, initial w0 /\ rtc (managed_step pm) w0 w.

End System.

(** ** Concrete projects and worlds *)

Module Scenario.

Import Process.

Definition pm : ProcessManager :=
  {| SboxDir := "/srv/app/.sbox"; ProjectRoot := "/srv/app";
     ProjectName := "app" |}.

Definition noon : Time :=
  {| unix_nano := 1767268800000000000; rfc3339 := "2026-01-01T12:00:00Z" |}.

Definition no_faults : Faults :=
  {| read_fault := false; write_fault := false; mkdir_fault := false;
     open_fault := false |}.

(** A fresh project. *)
Definition fresh : World :=
  {| proc_file := None; log_files := ∅; handles := ∅; next_handle := 0;
     procs := ∅; watchers := []; now := noon; faults := no_faults;
     trace := [] |}.

Definition record (name : string) (pid : Z) (status : string) : ProcessInfo :=
  {| PID := pid; Name := name; Command := "sleep 5"; StartTime := noon;
     Status := status; LogFile := GetLogFile pm name; Project := "app" |}.

(** A project whose process file holds [ps] while the processes [live]
    exist. *)
Definition world_of (ps : list ProcessInfo) (live : gmap Z Proc) : World :=
  set_procs live (set_proc_file (Some (Json ps)) fresh).

Definition obedient : Proc := {| traps_sigterm := false; lingers := false |}.

(** Names that are not valid UTF-8, as a command line can carry them: the
    single bytes 0xff and 0xfe. *)
Definition name_ff : string := String (ascii_of_nat 255) EmptyString.
Definition name_fe : string := String (ascii_of_nat 254) EmptyString.

(** A project whose process file does not decode. *)
Definition corrupt : World := set_proc_file (Some (Raw "[{")) fresh.

(** The fresh project after a daemon named "web" was started. *)
Definition web_started : World :=
  (StartDaemon pm "web" "sleep 5" [] "/srv/app" (Some (100%Z, obedient))
     fresh).1.

(** The process of "web" exits and its watcher runs. *)
Definition web_watcher : Watcher :=
  {| w_info := record "web" 100 "running"; w_fd := 0 |}.

Definition web_exited : World := set_procs ∅ web_started.

Definition web_watched : World :=
  set_watchers (delete 0 (watchers web_exited))
    (watcher_exit pm web_watcher web_exited).

(** A daemon "api" is started next and the kernel hands out pid 100 again;
    then that process exits as well. *)
Definition api_started : World :=
  (StartDaemon pm "api" "sleep 5" [] "/srv/app" (Some (100%Z, obedient))
     web_watched).1.

Definition api_watcher : Watcher :=
  {| w_info := record "api" 100 "running"; w_fd := 1 |}.

Definition api_exited : World := set_procs ∅ api_started.

(** Log files. *)
Fixpoint replicate_char (n : nat) (c : ascii) : string :=
  match n with
  | O => EmptyString
  | S n' => String c (replicate_char n' c)
  end.

(** A line of 64 KiB, as a daemon printing a large JSON document on one line
    leaves it. *)
Definition long_line : string := replicate_char (Z.to_nat 65536) "a"%char.

Definition with_log (name content : string) : World :=
  set_log_files {[ GetLogFile pm name := content ]} fresh.

Definition long_log : World :=
  with_log "web" ("ready" ++ nl ++ long_line ++ nl ++ "done" ++ nl).

Definition short_log : World := with_log "web" ("ready" ++ nl).

(** A project whose process file holds a record but cannot be read. *)
Definition unreadable : World :=
  {| proc_file := Some (Json [record "web" 100 "running"]);
     log_files := ∅; handles := ∅; next_handle := 0; procs := ∅;
     watchers := []; now := noon;
     faults := {| read_fault := true; write_fault := false;
                  mkdir_fault := false; open_fault := false |};
     trace := [] |}.

(** A fresh project whose process file cannot be written. *)
Definition readonly : World :=
  {| proc_file := None; log_files := ∅; handles := ∅; next_handle := 0;
     procs := ∅; watchers := []; now := noon;
     faults := {| read_fault := false; write_fault := true;
                  mkdir_fault := false; open_fault := false |};
     trace := [] |}.

(** A log of three lines, and one whose last line lacks its newline. *)
Definition three_lines : World :=
  with_log "web" (Bufio.unlines ["ready"; "serving"; "done"]).

Definition open_ended : World :=
  with_log "web" (Bufio.unlines ["ready"; "serving"] ++ "done").

(** The fresh project after [AddProcess] of a record named "web". *)
Definition one_added : World :=
  (AddProcess pm (record "web" 100 "running") fresh).1.

(** Two records are added under the name 0xff, one after the other. *)
Definition ff_added : World :=
  (AddProcess pm (record name_ff 100 "running") fresh).1.

Definition ff_added_twice : World :=
  (AddProcess pm (record name_ff 200 "running") ff_added).1.

(** Daemons are started under the names 0xff and 0xfe, one after the
    other. *)
Definition ff_started : World :=
  (StartDaemon pm name_ff "sleep 5" [] "/srv/app" (Some (100%Z, obedient))
     fresh).1.

Definition fe_started : World :=
  (StartDaemon pm name_fe "sleep 5" [] "/srv/app" (Some (101%Z, obedient))
     ff_started).1.

End Scenario.

(** ** Package [config]: parsing the entries of the configuration *)

Module Config.

(** [Config] represents the sandbox configuration; [Env] lists the entries
    of the map in the order a [range] over it visits them. *)
Record Config := {
  Runtime : string;
  Workdir : string;
  Copy : list string;
  Mount : list string;
  Install : list string;
  Cmd : string;
  Env : list (string * string)
}.

(** [CopySpec] represents a parsed copy specification. *)
Record CopySpec := { CopySrc : string; CopyDst : string }.

(** [MountSpec] represents a parsed mount specification. *)
Record MountSpec := {
  MountSrc : string;     (* Host path *)
  MountDst : string;     (* Container path *)
  ReadOnly : bool        (* Whether mount is read-only *)
}.

(** [RuntimeInfo] contains parsed runtime information. *)
Record RuntimeInfo := { Language : string; Version : string }.

Definition colon : ascii := ":"%char.

(** [ParseCopy] parses copy specifications. *)
Definition ParseCopy (c : Config) : list CopySpec :=
  map (fun item =>
         match GoStrings.SplitN2 colon item with
         | [src; dst] => {| CopySrc := src; CopyDst := dst |}
         | _ => {| CopySrc := item; CopyDst := item |}
         end)
      (Copy c).

(** [ParseMount] parses mount specifications.
    Format: /host/path:/container/path or /host/path:/container/path:ro *)
Fixpoint parse_mounts (items : list string) : list MountSpec :=
  match items with
  | [] => []
  | item :: rest =>
      match GoStrings.Split colon item with
      | src :: dst :: more =>
          let readonly :=
            match more with
            | flag :: _ => String.eqb flag "ro" || String.eqb flag "readonly"
            | [] => false
            end in
          {| MountSrc := src; MountDst := dst; ReadOnly := readonly |}
          :: parse_mounts rest
      | _ =>
          (* Invalid format, skip *)
          parse_mounts rest
      end
  end.

Definition ParseMount (c : Config) : list MountSpec := parse_mounts (Mount c).

(** [ParseRuntime] parses the runtime string. *)
Definition ParseRuntime (unicode_lower : string -> string) (c : Config)
    : RuntimeInfo :=
  let parts := GoStrings.SplitN2 colon (Runtime c) in
  let info := {| Language := "python"; Version := "3.10" |} in
  let info :=
    match parts with
    | first :: _ =>
        {| Language := GoStrings.ToLower unicode_lower first;
           Version := Version info |}
    | [] => info
    end in
  match parts with
  | _ :: second :: _ => {| Language := Language info; Version := second |}
  | _ => info
  end.

(** The entry a copy or mount specification is written as. *)
Definition copy_entry (sp : CopySpec) : string :=
  CopySrc sp ++ ":" ++ CopyDst sp.

Definition mount_entry (sp : MountSpec) : string :=
  MountSrc sp ++ ":" ++ MountDst sp ++ (if ReadOnly sp then ":ro" else "").

End Config.

(** ** Package [runner]: the environment of the sandbox *)

Module Runner.

(** [Runner] executes commands in the sandbox environment. *)
Record Runner := {
  ProjectRoot : string;
  Config : Config.Config;
  EnvDir : string;
  Rootfs : string;
  SboxDir : string
}.

(** Essential system vars. *)
Definition essentialVars : list string :=
  ["LANG"; "TERM"; "USER"; "LOGNAME"; "DISPLAY"; "SSH_AUTH_SOCK"].

(** [BuildEnv] returns the environment variables for the sandbox.  [getenv]
    is [os.Getenv] and [expand] is [os.ExpandEnv] in the host process. *)
Definition BuildEnv (getenv expand : string -> string) (r : Runner)
    : list string :=
  let env :=
    flat_map (fun key =>
                let val := getenv key in
                if String.eqb val "" then [] else [(key ++ "=" ++ val)%string])
             essentialVars in
  (* Defaults *)
  let env :=
    if String.eqb (getenv "LANG") "" then env ++ ["LANG=en_US.UTF-8"]
    else env in
  let env :=
    if String.eqb (getenv "TERM") "" then env ++ ["TERM=xterm-256color"]
    else env in
  env
  (* Sandbox identification *)
  ++ ["SBOX_ACTIVE=1"; ("SBOX_PROJECT=" ++ ProjectRoot r)%string]
  (* Python isolation *)
  ++ ["PYTHONNOUSERSITE=1"; "PYTHONDONTWRITEBYTECODE=1";
      "PIP_DISABLE_PIP_VERSION_CHECK=1"]
  (* Paths - isolated *)
  ++ [("PATH=" ++ EnvDir r ++ "/bin:/usr/bin:/bin:/usr/sbin:/sbin")%string;
      ("HOME=" ++ Rootfs r ++ "/home")%string;
      ("TMPDIR=" ++ Rootfs r ++ "/tmp")%string]
  (* Conda/mamba vars *)
  ++ [("CONDA_PREFIX=" ++ EnvDir r)%string;
      ("MAMBA_ROOT_PREFIX=" ++ SboxDir r ++ "/mamba")%string]
  (* Custom environment variables from config *)
  ++ map (fun kv => (kv.1 ++ "=" ++ expand kv.2)%string)
         (Config.Env (Config r)).

End Runner.

(** ** Package [os/exec]: the environment a command is started with *)

Module Exec.

Definition equals : ascii := "="%char.

(** The key [dedupEnv] reads off an entry: the text before its first "=".
    An entry that starts with "=" has the key up to its second "=", the
    empty key when there is no second one; an entry without "=" has no
    key. *)
Definition entry_key (kv : string) : option string :=
  match kv with
  | EmptyString => None
  | String c rest =>
      if Ascii.eqb c equals then
        match GoStrings.cut equals rest with
        | Some (k, _) => Some (String c k)
        | None => Some EmptyString
        end
      else
        match GoStrings.cut equals kv with
        | Some (k, _) => Some k
        | None => None
        end
  end.

Definition has_key (key kv : string) : bool :=
  match entry_key kv with
  | Some k => String.eqb k key
  | None => false
  end.

(** The entry a command started with [cmd.Env = env] gets for [key]: of
    the entries with one key, [dedupEnv] keeps the last.  (An entry with a
    NUL byte makes the start fail; such environments are left out.) *)
Fixpoint env_entry (key : string) (env : list string) : option string :=
  match env with
  | [] => None
  | kv :: rest =>
      match env_entry key rest with
      | Some later => Some later
      | None => if has_key key kv then Some kv else None
      end
  end.

End Exec.

(** ** Package [process]: the logs directory and the formatting helpers *)

Module LogDir.

(** An entry of the logs directory as [os.ReadDir] lists it.  [entry_mtime]
    is the modification time [entry.Info()] reports, in nanoseconds, or
    nothing when [Info] fails; [entry_removable] says whether [os.Remove]
    succeeds on the entry. *)
Record DirEntry := {
  entry_name : string;
  entry_is_dir : bool;
  entry_mtime : option Z;
  entry_removable : bool
}.

(** The logs directory: absent, present but unreadable, or listed. *)
Inductive Dir :=
| Missing
| Unreadable
| Listing (entries : list DirEntry).

(** The loop of [ListLogs]. *)
Fixpoint list_logs (entries : list DirEntry) : list string :=
  match entries with
  | [] => []
  | entry :: rest =>
      if negb (entry_is_dir entry)
         && GoStrings.HasSuffix (entry_name entry) ".log"
      then GoStrings.TrimSuffix (entry_name entry) ".log" :: list_logs rest
      else list_logs rest
  end.

(** [ListLogs] lists all available log files; nothing when the directory
    cannot be read. *)
Definition ListLogs (d : Dir) : option (list string) :=
  match d with
  | Missing => Some []
  | Unreadable => None
  | Listing entries => Some (list_logs entries)
  end.

(** The loop of [CleanOldLogs]: the entries left in the directory and the
    counter [removed]. *)
Fixpoint clean_loop (cutoff : Z) (entries : list DirEntry) (removed : Z)
    : list DirEntry * Z :=
  match entries with
  | [] => ([], removed)
  | entry :: rest =>
      if entry_is_dir entry then
        let '(kept, n) := clean_loop cutoff rest removed in (entry :: kept, n)
      else
        match entry_mtime entry with
        | None =>
            let '(kept, n) := clean_loop cutoff rest removed in
            (entry :: kept, n)
        | Some mtime =>
            if (mtime <? cutoff)%Z then
              if entry_removable entry
              then clean_loop cutoff rest (GoInt.wrap (removed + 1))
              else
                let '(kept, n) := clean_loop cutoff rest removed in
                (entry :: kept, n)
            else
              let '(kept, n) := clean_loop cutoff rest removed in
              (entry :: kept, n)
        end
  end.

(** [CleanOldLogs] removes log files older than the specified duration.
    [now] is [time.Now()] and [maxAge] the duration, both in nanoseconds;
    the result is the directory afterwards and the count returned, nothing
    when the directory cannot be read. *)
Definition CleanOldLogs (now maxAge : Z) (d : Dir) : Dir * option Z :=
  match d with
  | Missing => (Missing, Some 0%Z)
  | Unreadable => (Unreadable, None)
  | Listing entries =>
      let cutoff := (now + GoInt.wrap (- maxAge))%Z in
      let '(kept, removed) := clean_loop cutoff entries 0%Z in
      (Listing kept, Some removed)
  end.

(** The entries [CleanOldLogs] takes away: files known to be older than the
    cutoff that can be removed. *)
Definition doomed (cutoff : Z) (entry : DirEntry) : bool :=
  negb (entry_is_dir entry)
  && match entry_mtime entry with
     | Some mtime => (mtime <? cutoff)%Z
     | None => false
     end
  && entry_removable entry.

End LogDir.

Module Format.

Definition unit : Z := 1024%Z.

(** The loop [for n := bytes / unit; n >= unit; n /= unit { div *= unit;
    exp++ }] of [FormatBytes], run for at most [fuel] rounds: the values of
    [div] and [exp] at its end, or nothing when the rounds do not suffice. *)
Fixpoint scale (fuel : nat) (n div exp : Z) : option (Z * Z) :=
  match fuel with
  | O => if (unit <=? n)%Z then None else Some (div, exp)
  | S fuel' =>
      if (unit <=? n)%Z
      then scale fuel' (Z.quot n unit) (GoInt.wrap (div * unit))
             (GoInt.wrap (exp + 1))
      else Some (div, exp)
  end.

(** What [FormatBytes] prints: the plain count, or the count over [div]
    with one digit after the point and the letter of the unit. *)
Inductive Rendering :=
| Plain (bytes : Z)                        (* "%d B" *)
| Scaled (bytes div : Z) (letter : ascii)  (* "%.1f %cB" *)
| IndexPanic.                              (* "KMGTPE"[exp] out of range *)

(** [FormatBytes] formats bytes in human-readable form. *)
Definition FormatBytes (bytes : Z) : option Rendering :=
  if (bytes <? unit)%Z then Some (Plain bytes)
  else
    match scale 64 (Z.quot bytes unit) unit 0 with
    | None => None
    | Some (div, exp) =>
        match String.get (Z.to_nat exp) "KMGTPE" with
        | Some letter => Some (Scaled bytes div letter)
        | None => Some IndexPanic
        end
    end.

End Format.


(** * Properties *)

Import Process.

(** ** Strings and records through the JSON coding *)

Section JsonFacts.

Import Json.

Lemma round_trip_start c rest :
  round_trip (String c rest) 0
  = match rune_size (String c rest) with
    | Some size => String c (round_trip rest (Nat.pred size))
    | None => (replacement ++ round_trip rest 0)%string
    end.
Proof. reflexivity. Qed.

Lemma continues_round_trip n : forall s,
  continues n (round_trip s n) = continues n s.
Proof.
  induction n as [|n IH]; intros s; [reflexivity|].
  destruct s as [|c s]; [reflexivity|].
  cbn [round_trip continues]. now rewrite IH.
Qed.

(** A well-formed rune is still one once the bytes after it went through
    the coding: its own bytes are copied. *)
Lemma rune_size_round_trip c rest size :
  rune_size (String c rest) = Some size ->
  rune_size (String c (round_trip rest (Nat.pred size))) = Some size.
Proof.
  unfold rune_size.
  destruct (lead c) as [|extra lo hi|]; [now intros [= <-]| |discriminate].
  destruct rest as [|c1 rest']; [discriminate|].
  destruct (byte_in lo hi c1 && continues extra rest') eqn:E; [|discriminate].
  intros [= <-]. cbn [Nat.pred round_trip].
  now rewrite continues_round_trip, E.
Qed.

Lemma round_trip_replacement t :
  round_trip (replacement ++ t) 0 = (replacement ++ round_trip t 0)%string.
Proof. reflexivity. Qed.

Lemma round_trip_idem s : forall pending,
  round_trip (round_trip s pending) pending = round_trip s pending.
Proof.
  induction s as [|c rest IH]; intros [|pending]; try reflexivity.
  - rewrite (round_trip_start c rest).
    destruct (rune_size (String c rest)) as [size|] eqn:E.
    + rewrite round_trip_start, (rune_size_round_trip c rest size E).
      now rewrite IH.
    + now rewrite round_trip_replacement, IH.
  - cbn [round_trip]. now rewrite IH.
Qed.

(** What went through the coding once is valid UTF-8. *)
Lemma json_string_idem s : json_string (json_string s) = json_string s.
Proof. apply round_trip_idem. Qed.

(** ASCII text is valid UTF-8. *)
Lemma ascii_utf8 s : GoStrings.is_ascii s = true -> utf8 s.
Proof.
  unfold utf8, json_string.
  induction s as [|c rest IH]; [reflexivity|]. simpl GoStrings.is_ascii.
  intros H. apply andb_true_iff in H as [Hc Hrest].
  rewrite round_trip_start. unfold rune_size, lead.
  unfold GoStrings.is_ascii_byte in Hc. rewrite Hc. cbn [Nat.pred].
  now rewrite (IH Hrest).
Qed.

Lemma json_record_idem p : json_record (json_record p) = json_record p.
Proof.
  unfold json_record. cbn [PID Name Command StartTime Status LogFile Project].
  now rewrite !json_string_idem.
Qed.

Lemma json_record_stopped p :
  json_record (set_Status "stopped" p) = set_Status "stopped" (json_record p).
Proof. reflexivity. Qed.

(** A record whose strings are all valid UTF-8 comes back as it is. *)
Lemma json_record_utf8 p :
  utf8 (Name p) -> utf8 (Command p) -> utf8 (Status p) ->
  utf8 (LogFile p) -> utf8 (Project p) -> json_record p = p.
Proof.
  unfold utf8, json_record. intros -> -> -> -> ->. now destruct p.
Qed.

Lemma json_record_Name p : Name (json_record p) = json_string (Name p).
Proof. reflexivity. Qed.

Lemma json_record_PID p : PID (json_record p) = PID p.
Proof. reflexivity. Qed.

(** Tables whose records the coding leaves as they are. *)
Lemma json_table_idem ps :
  map json_record (map json_record ps) = map json_record ps.
Proof.
  rewrite map_map. apply map_ext. intros p. apply json_record_idem.
Qed.

Lemma json_fixed_Forall ps :
  map json_record ps = ps <-> Forall (fun p => json_record p = p) ps.
Proof.
  induction ps as [|p ps IH]; simpl.
  - split; [constructor|reflexivity].
  - split.
    + intros [= Hp Hps]. constructor; [assumption|now apply IH].
    + intros H. inversion H as [|? ? Hp Hps]; subst.
      apply IH in Hps. now rewrite Hp, Hps.
Qed.

Lemma json_fixed_without name ps :
  map json_record ps = ps ->
  map json_record (without_name name ps) = without_name name ps.
Proof.
  rewrite !json_fixed_Forall. unfold without_name.
  induction 1 as [|p ps Hp _ IH]; simpl; [constructor|].
  destruct (negb (Name p =? name)%string); [constructor|]; assumption.
Qed.

Lemma json_fixed_settle w ps :
  map json_record ps = ps ->
  map json_record (map (System.settle w) ps) = map (System.settle w) ps.
Proof.
  rewrite !json_fixed_Forall.
  induction 1 as [|p ps Hp Hps IH]; simpl; constructor; try assumption.
  unfold System.settle. destruct (System.stale w p); [|assumption].
  now rewrite json_record_stopped, Hp.
Qed.

Lemma json_fixed_stop_first f ps :
  map json_record ps = ps ->
  map json_record (stop_first f ps) = stop_first f ps.
Proof.
  rewrite !json_fixed_Forall.
  induction 1 as [|p ps Hp Hps IH]; simpl; [constructor|].
  destruct (f p); constructor; try assumption.
  now rewrite json_record_stopped, Hp.
Qed.

End JsonFacts.

(** ** Basic facts about the store *)

Section StoreFacts.

Variable pm : ProcessManager.

Lemma LoadProcesses_fixed w ps :
  LoadProcesses w = Ok ps -> map json_record ps = ps.
Proof.
  unfold LoadProcesses.
  destruct (read_fault (faults w)); [discriminate|].
  destruct (proc_file w) as [[qs|raw]|]; simpl; try discriminate.
  - intros [= <-]. apply json_table_idem.
  - now intros [= <-].
Qed.

Lemma LoadProcesses_stored w ps :
  LoadProcesses w = Ok ps -> ps = System.stored w.
Proof.
  unfold LoadProcesses, System.stored.
  destruct (read_fault (faults w)); [discriminate|].
  destruct (proc_file w) as [[qs|raw]|]; simpl; congruence.
Qed.

Lemma SaveProcesses_proc_file ps w :
  proc_file (SaveProcesses pm ps w).1 =
    if write_fault (faults w) then proc_file w else Some (Json ps).
Proof.
  unfold SaveProcesses, os_WriteFile.
  destruct (write_fault (faults w)); reflexivity.
Qed.

Lemma SaveProcesses_stored ps w :
  System.stored (SaveProcesses pm ps w).1 =
    if write_fault (faults w) then System.stored w else map json_record ps.
Proof.
  unfold System.stored. rewrite SaveProcesses_proc_file.
  destruct (write_fault (faults w)); reflexivity.
Qed.

Lemma SaveProcesses_error ps w :
  (SaveProcesses pm ps w).2 =
    if write_fault (faults w) then Some ErrWriteFile else None.
Proof.
  unfold SaveProcesses, os_WriteFile.
  destruct (write_fault (faults w)); reflexivity.
Qed.

Lemma SaveProcesses_trace ps w :
  trace (SaveProcesses pm ps w).1 =
    trace w ++
    (if write_fault (faults w)
     then [EvOpenTrunc (GetProcessFile pm) false]
     else [EvOpenTrunc (GetProcessFile pm) true;
           EvWrite (GetProcessFile pm); EvClose (GetProcessFile pm)]).
Proof.
  unfold SaveProcesses, os_WriteFile.
  destruct (write_fault (faults w)); simpl; [reflexivity|].
  rewrite <- !app_assoc. reflexivity.
Qed.

Lemma SaveProcesses_rest ps w :
  let w' := (SaveProcesses pm ps w).1 in
  faults w' = faults w /\ procs w' = procs w /\ watchers w' = watchers w /\
  handles w' = handles w /\ log_files w' = log_files w /\
  next_handle w' = next_handle w /\ now w' = now w.
Proof.
  unfold SaveProcesses, os_WriteFile.
  destruct (write_fault (faults w)); simpl; repeat split; reflexivity.
Qed.


Lemma stored_fixed w : map json_record (System.stored w) = System.stored w.
Proof.
  unfold System.stored. destruct (proc_file w) as [[qs|raw]|]; try reflexivity.
  apply json_table_idem.
Qed.

Lemma SaveProcesses_load ps w :
  read_fault (faults w) = false ->
  write_fault (faults w) = false ->
  LoadProcesses (SaveProcesses pm ps w).1 = Ok (map json_record ps).
Proof.
  intros Hr Hw. unfold LoadProcesses.
  destruct (SaveProcesses_rest ps w) as (Hf & _).
  now rewrite Hf, Hr, SaveProcesses_proc_file, Hw.
Qed.

Lemma SaveProcesses_load_fixed ps w :
  map json_record ps = ps ->
  read_fault (faults w) = false ->
  write_fault (faults w) = false ->
  LoadProcesses (SaveProcesses pm ps w).1 = Ok ps.
Proof. intros H Hr Hw. now rewrite SaveProcesses_load, H. Qed.

(** A table that was loaded and then changed in statuses or by dropping
    records is stored as it stands. *)
Lemma SaveProcesses_stored_fixed ps w :
  map json_record ps = ps ->
  System.stored (SaveProcesses pm ps w).1 =
    if write_fault (faults w) then System.stored w else ps.
Proof. intros H. now rewrite SaveProcesses_stored, H. Qed.

End StoreFacts.

(** ** Names in the table *)

Section Names.

Import System.

Lemma set_Status_Name s p : Name (set_Status s p) = Name p.
Proof. reflexivity. Qed.



Lemma without_name_In n ps x :
  In x (map Name (without_name n ps)) <-> In x (map Name ps) /\ x <> n.
Proof.
  unfold without_name. rewrite !in_map_iff. split.
  - intros (p & <- & Hp). apply filter_In in Hp as [Hin Hne].
    apply negb_true_iff, String.eqb_neq in Hne. eauto.
  - intros [(p & <- & Hin) Hne]. exists p. split; [reflexivity|].
    apply filter_In. split; [assumption|].
    now apply negb_true_iff, String.eqb_neq.
Qed.



Lemma count_without_name n ps : count_name n (without_name n ps) = 0.
Proof.
  unfold count_name, without_name.
  induction ps as [|p ps IH]; simpl; [reflexivity|].
  destruct (Name p =? n)%string eqn:E; simpl; [assumption|].
  now rewrite E.
Qed.

Lemma count_name_app n ps qs :
  count_name n (ps ++ qs) = count_name n ps + count_name n qs.
Proof. unfold count_name. now rewrite List.filter_app, List.length_app. Qed.

Lemma upsert_count info ps :
  count_name (Name info) (without_name (Name info) ps ++ [info]) = 1.
Proof.
  rewrite count_name_app, count_without_name.
  unfold count_name. simpl. now rewrite String.eqb_refl.
Qed.

(** In a table with unique names, a name that is found occurs once. *)
Lemma unique_count n ps p :
  unique_names ps ->
  List.find (fun q => String.eqb (Name q) n) ps = Some p ->
  count_name n ps = 1.
Proof.
  unfold unique_names, count_name.
  induction ps as [|q ps IH]; simpl; [discriminate|].
  intros Hnd Hfind. inversion Hnd as [|? ? Hnotin Hrest]; subst.
  destruct (Name q =? n)%string eqn:E.
  - simpl. f_equal.
    apply String.eqb_eq in E. subst n.
    assert (Hnone : forall rs, ~ In (Name q) (map Name rs) ->
      List.filter (fun r => (Name r =? Name q)%string) rs = []).
    { induction rs as [|r rs IHr]; simpl; [reflexivity|].
      intros Hn. destruct (Name r =? Name q)%string eqn:E'.
      - apply String.eqb_eq in E'. exfalso. apply Hn. now left.
      - apply IHr. intros Hin. apply Hn. now right. }
    rewrite Hnone; [reflexivity|].
    intros Hin. apply Hnotin. now apply list_elem_of_In.
  - now apply IH.
Qed.

End Names.

(** ** The store keeps names unique, as long as they are valid UTF-8 *)

Section Uniqueness.

Import System.

Variable pm : ProcessManager.






Lemma loaded_fixed w :
  let ps := match LoadProcesses w with Ok ps => ps | Err _ => [] end in
  map json_record ps = ps.
Proof.
  destruct (LoadProcesses w) as [ps|e] eqn:E; simpl; [|reflexivity].
  now apply (LoadProcesses_fixed w).
Qed.





Lemma GetRunningProcesses_world w :
  (GetRunningProcesses pm w).1 = (UpdateProcessStatus pm w).1.
Proof.
  unfold GetRunningProcesses.
  destruct (UpdateProcessStatus pm w) as [w' [ps|e]]; reflexivity.
Qed.








End Uniqueness.



(** ** Uniqueness of names (C2) *)

(** C2 is not met by the code: a name that is not valid UTF-8 is stored as
    another name than the one AddProcess compares with.  After two records
    were added under the name 0xff, the table holds both, each named
    U+FFFD: the second AddProcess found no record named 0xff to replace. *)
Theorem AddProcess_twice_under_invalid_name :
  System.reachable Scenario.pm Scenario.ff_added_twice /\
  LoadProcesses Scenario.ff_added_twice
    = Ok (System.stored Scenario.ff_added_twice) /\
  map (fun p => (Name p, PID p)) (System.stored Scenario.ff_added)
    = [(Json.replacement, 100%Z)] /\
  map (fun p => (Name p, PID p)) (System.stored Scenario.ff_added_twice)
    = [(Json.replacement, 100%Z); (Json.replacement, 200%Z)] /\
  System.count_name Json.replacement (System.stored Scenario.ff_added_twice)
    = 2 /\
  ~ System.unique_names (System.stored Scenario.ff_added_twice).
Proof.
  split.
  { exists Scenario.fresh. split; [repeat split; reflexivity|].
    apply (rtc_l _ _ Scenario.ff_added).
    - now apply System.step_AddProcess.
    - apply rtc_once. now apply System.step_AddProcess. }
  split; [vm_compute; reflexivity|]. split; [vm_compute; reflexivity|].
  split; [vm_compute; reflexivity|]. split; [vm_compute; reflexivity|].
  intros Huniq. unfold System.unique_names in Huniq.
  assert (Hnames : map Name (System.stored Scenario.ff_added_twice)
                   = [Json.replacement; Json.replacement])
    by (vm_compute; reflexivity).
  rewrite Hnames in Huniq. inversion Huniq as [|? ? Hnotin _]; subst.
  apply Hnotin. constructor.
Qed.

(** ** Adding after a failed load (C9) *)

Lemma LoadProcesses_errors w e :
  LoadProcesses w = Err e -> e = ErrReadFile \/ e = ErrUnmarshal.
Proof.
  unfold LoadProcesses. destruct (read_fault (faults w)).
  - intros [= <-]. now left.
  - destruct (proc_file w) as [d|]; [|discriminate].
    destruct (json_Unmarshal d); [discriminate|]. intros [= <-]. now right.
Qed.

(** C9: when loading the process table fails (the file is there but cannot
    be read, or its bytes are not the JSON of a table), AddProcess does not
    return that error: it goes on with an empty table and saves a table
    holding the new record alone, so whatever records the file held are
    gone. *)
Theorem AddProcess_after_failed_load pm info w e :
  LoadProcesses w = Err e ->
  AddProcess pm info w = SaveProcesses pm [info] w /\
  (AddProcess pm info w).2 <> Some e /\
  (write_fault (faults w) = false ->
   (AddProcess pm info w).2 = None /\
   proc_file (AddProcess pm info w).1 = Some (Json [info])).
Proof.
  intros Hload.
  assert (Hadd : AddProcess pm info w = SaveProcesses pm [info] w).
  { unfold AddProcess. now rewrite Hload. }
  rewrite Hadd. split; [reflexivity|]. split.
  - rewrite SaveProcesses_error.
    destruct (LoadProcesses_errors w e Hload) as [-> | ->];
      destruct (write_fault (faults w)); discriminate.
  - intros Hw. rewrite SaveProcesses_error, SaveProcesses_proc_file, Hw.
    now split.
Qed.

Lemma AddProcess_after_failed_load_witness :
  LoadProcesses Scenario.corrupt = Err ErrUnmarshal /\
  proc_file
    (AddProcess Scenario.pm (Scenario.record "web" 100 "running")
       Scenario.corrupt).1
  = Some (Json [Scenario.record "web" 100 "running"]).
Proof.
  split; [reflexivity|].
  apply (AddProcess_after_failed_load Scenario.pm
           (Scenario.record "web" 100 "running") Scenario.corrupt ErrUnmarshal);
    reflexivity.
Defined.

(** ** Stop on a record that is not running (C5) *)

Lemma is_running_false p : Status p <> "running" -> is_running p = false.
Proof. intros H. unfold is_running. now apply String.eqb_neq. Qed.

Lemma is_running_true p : Status p = "running" -> is_running p = true.
Proof. intros H. unfold is_running. now apply String.eqb_eq. Qed.

Lemma find_name_absent name ps :
  ~ In name (map Name ps) ->
  List.find (fun p => String.eqb (Name p) name) ps = None.
Proof.
  induction ps as [|p ps IH]; simpl; [reflexivity|]. intros Hn.
  destruct (Name p =? name)%string eqn:E.
  - apply String.eqb_eq in E. exfalso. apply Hn. now left.
  - apply IH. intros Hin. apply Hn. now right.
Qed.

(** C5: stop on a name whose record has a status other than "running" fails
    with the not-running error and changes nothing, so no signal is sent;
    stop on a name the table does not hold fails with the not-found error,
    again changing nothing. *)
Theorem StopProcess_not_running pm name w :
  (forall info,
     GetProcess name w = Ok info -> Status info <> "running" ->
     StopProcess pm name w = (w, Some (ErrNotRunning name (Status info)))) /\
  (forall ps,
     LoadProcesses w = Ok ps -> ~ In name (map Name ps) ->
     StopProcess pm name w = (w, Some (ErrNotFound name))).
Proof.
  split.
  - intros info Hget Hst. unfold StopProcess. rewrite Hget.
    now rewrite (is_running_false info Hst).
  - intros ps Hload Hn. unfold StopProcess, GetProcess. rewrite Hload.
    now rewrite (find_name_absent name ps Hn).
Qed.

Lemma StopProcess_not_running_witness :
  let w := Scenario.world_of [Scenario.record "web" 100 "stopped"]
             {[ 100%Z := Scenario.obedient ]} in
  StopProcess Scenario.pm "web" w = (w, Some (ErrNotRunning "web" "stopped")) /\
  StopProcess Scenario.pm "api" w = (w, Some (ErrNotFound "api")).
Proof.
  intros w. split.
  - apply (proj1 (StopProcess_not_running Scenario.pm "web" w)
             (Scenario.record "web" 100 "stopped")).
    + reflexivity.
    + discriminate.
  - apply (proj2 (StopProcess_not_running Scenario.pm "api" w)
             [Scenario.record "web" 100 "stopped"]).
    + reflexivity.
    + simpl. intros [H|[]]. discriminate.
Defined.

(** ** No double start (C4) *)

Lemma GetProcess_found name w p :
  GetProcess name w = Ok p ->
  List.find (fun q => String.eqb (Name q) name) (System.stored w) = Some p.
Proof.
  unfold GetProcess. destruct (LoadProcesses w) as [ps|e] eqn:E; [|discriminate].
  apply LoadProcesses_stored in E. subst ps.
  destruct (List.find _ _); congruence.
Qed.

(** What the check of a start request (run --detach) does in general: when
    the record found under the name says "running" and the probe finds its
    pid alive, the request ends with the already-running message carrying
    that pid and the world is left as it was, so no child is spawned. *)
Lemma runRun_refuses_running pm w name existing command cfg_cmd env workdir
    child :
  GetProcess (Cmd.daemon_name pm name) w = Ok existing ->
  Status existing = "running" ->
  IsProcessRunning (PID existing) w = true ->
  Cmd.runRun pm true name command cfg_cmd env workdir child w
    = (w, Cmd.Die
            (Cmd.FatalAlreadyRunning (Cmd.daemon_name pm name) (PID existing))).
Proof.
  intros Hget Hst Halive.
  unfold Cmd.runRun. now rewrite Hget, (is_running_true _ Hst), Halive.
Qed.

(** C4 is not met by the code where names are not valid UTF-8.  Daemons
    started under the names 0xff and 0xfe are both recorded under the name
    U+FFFD, and both run.  A start request for the name U+FFFD ends with the
    already-running message and spawns nothing, but the table it leaves
    holds two records of that name, not one. *)
Theorem runRun_already_running_two_records :
  Cmd.runRun Scenario.pm true Scenario.name_ff "sleep 5" "" [] "/srv/app"
    (Some (100%Z, Scenario.obedient)) Scenario.fresh
  = (Scenario.ff_started,
     Cmd.Return
       (Cmd.DaemonStarted (Scenario.record Scenario.name_ff 100 "running"))) /\
  Cmd.runRun Scenario.pm true Scenario.name_fe "sleep 5" "" [] "/srv/app"
    (Some (101%Z, Scenario.obedient)) Scenario.ff_started
  = (Scenario.fe_started,
     Cmd.Return
       (Cmd.DaemonStarted (Scenario.record Scenario.name_fe 101 "running"))) /\
  map (fun p => (Name p, PID p, Status p, IsProcessRunning (PID p)
                                            Scenario.fe_started))
      (System.stored Scenario.fe_started)
  = [(Json.replacement, 100%Z, "running", true);
     (Json.replacement, 101%Z, "running", true)] /\
  Cmd.runRun Scenario.pm true Json.replacement "sleep 9" "" [] "/srv/app"
    (Some (102%Z, Scenario.obedient)) Scenario.fe_started
  = (Scenario.fe_started,
     Cmd.Die (Cmd.FatalAlreadyRunning Json.replacement 100)) /\
  System.count_name Json.replacement (System.stored Scenario.fe_started) = 2.
Proof.
  split; [vm_compute; reflexivity|]. split; [vm_compute; reflexivity|].
  split; [vm_compute; reflexivity|]. split; vm_compute; reflexivity.
Qed.

(** ** Saving the table (C1) *)

(** C1 does not hold: saving over a table file truncates that very file and
    then writes it, and in between the file is empty and does not load. *)
Lemma SaveProcesses_truncates_in_place :
  let w := Scenario.world_of [Scenario.record "web" 100 "running"] ∅ in
  let ps := [Scenario.record "web" 100 "stopped"] in
  trace (SaveProcesses Scenario.pm ps w).1
    = [EvOpenTrunc "/srv/app/.sbox/processes.json" true;
       EvWrite "/srv/app/.sbox/processes.json";
       EvClose "/srv/app/.sbox/processes.json"] /\
  exists torn,
    In torn (SaveProcesses_states Scenario.pm ps w) /\
    proc_file torn = Some (Raw "") /\
    LoadProcesses torn = Err ErrUnmarshal.
Proof.
  intros w ps. split; [reflexivity|].
  exists (sys_open_trunc (GetProcessFile Scenario.pm) w).
  split; [now left|]. split; reflexivity.
Qed.

(** C1, amended: SaveProcesses persists the full table with os.WriteFile on
    the table file itself.  A save that succeeds opens the file truncating
    it, writes the serialized table and closes the file, and nothing else:
    no temporary file, no rename.  Afterwards the file holds the table; while
    the call is under way a reader finds first the empty file, then the new
    table. *)
Theorem SaveProcesses_writes_in_place pm ps w :
  write_fault (faults w) = false ->
  (SaveProcesses pm ps w).2 = None /\
  trace (SaveProcesses pm ps w).1
    = trace w ++ [EvOpenTrunc (GetProcessFile pm) true;
                  EvWrite (GetProcessFile pm); EvClose (GetProcessFile pm)] /\
  proc_file (SaveProcesses pm ps w).1 = Some (Json ps) /\
  map proc_file (SaveProcesses_states pm ps w)
    = [Some (Raw ""); Some (Json ps)] /\
  (forall torn, In torn (SaveProcesses_states pm ps w) ->
     proc_file torn = Some (Raw "") -> read_fault (faults torn) = false ->
     LoadProcesses torn = Err ErrUnmarshal).
Proof.
  intros Hw.
  rewrite SaveProcesses_error, SaveProcesses_trace, SaveProcesses_proc_file, Hw.
  repeat split.
  - unfold SaveProcesses_states, os_WriteFile_states. now rewrite Hw.
  - intros torn _ Hfile Hr. unfold LoadProcesses. now rewrite Hr, Hfile.
Qed.

Lemma SaveProcesses_writes_in_place_witness :
  map proc_file
    (SaveProcesses_states Scenario.pm [Scenario.record "web" 100 "running"]
       Scenario.fresh)
  = [Some (Raw ""); Some (Json [Scenario.record "web" 100 "running"])].
Proof.
  apply (SaveProcesses_writes_in_place Scenario.pm
           [Scenario.record "web" 100 "running"] Scenario.fresh).
  reflexivity.
Defined.

(** ** Reconciliation (C3) *)

Section Reconciliation.

Import System.

Lemma reconcile_settles w ps :
  reconcile w ps = (map (settle w) ps, existsb (stale w) ps).
Proof.
  induction ps as [|p ps IH]; simpl; [reflexivity|].
  rewrite IH. unfold settle, stale.
  destruct (is_running p && negb (IsProcessRunning (PID p) w)); reflexivity.
Qed.

Lemma settle_stale w p : stale w p = true -> settle w p <> p.
Proof.
  intros Hs. unfold settle. rewrite Hs. intros Heq.
  unfold stale in Hs. apply andb_true_iff in Hs as [Hrun _].
  unfold is_running in Hrun. apply String.eqb_eq in Hrun.
  rewrite <- Heq in Hrun. discriminate.
Qed.

Lemma settle_changes w ps :
  existsb (stale w) ps = true <-> map (settle w) ps <> ps.
Proof.
  induction ps as [|p ps IH]; simpl.
  - split; [discriminate|]. intros H. now contradiction H.
  - rewrite orb_true_iff. split.
    + intros [Hs|Hs] [= Hp Hps].
      * now apply (settle_stale w p).
      * now apply IH in Hs.
    + intros Hne. destruct (stale w p) eqn:Hs; [now left|right].
      apply IH. intros Hps. apply Hne. unfold settle at 1.
      now rewrite Hs, Hps.
Qed.

Lemma settle_not_stale w p : stale w (settle w p) = false.
Proof.
  unfold settle. destruct (stale w p) eqn:Hs; [|assumption].
  reflexivity.
Qed.

Lemma UpdateProcessStatus_settles pm w ps :
  LoadProcesses w = Ok ps ->
  UpdateProcessStatus pm w
    = (if existsb (stale w) ps
       then (SaveProcesses pm (map (settle w) ps) w).1 else w,
       Ok (map (settle w) ps)).
Proof.
  intros Hload. unfold UpdateProcessStatus.
  now rewrite Hload, reconcile_settles.
Qed.

Lemma UpdateProcessStatus_procs pm w :
  procs (UpdateProcessStatus pm w).1 = procs w.
Proof.
  unfold UpdateProcessStatus. destruct (LoadProcesses w) as [ps|e]; [|reflexivity].
  destruct (reconcile w ps) as [ps' [|]]; simpl; [|reflexivity].
  apply SaveProcesses_rest.
Qed.

Lemma GetRunningProcesses_settles pm w ps :
  LoadProcesses w = Ok ps ->
  GetRunningProcesses pm w
    = ((UpdateProcessStatus pm w).1,
       Ok (List.filter (fun p => is_running p && IsProcessRunning (PID p) w)
             (map (settle w) ps))).
Proof.
  intros Hload. unfold GetRunningProcesses.
  pose proof (UpdateProcessStatus_procs pm w) as Hprocs.
  rewrite (UpdateProcessStatus_settles pm w ps Hload) in *. simpl in *.
  do 2 f_equal. apply filter_ext. intros p.
  unfold IsProcessRunning. now rewrite Hprocs.
Qed.

End Reconciliation.

(** C3 does not hold for stop: with a record that says "running" for a pid
    that is dead, stop finds no "stopped" record; it signals the dead pid and
    reports success. *)
Lemma stop_acts_on_stored_status :
  let w := Scenario.world_of [Scenario.record "web" 100 "running"] ∅ in
  IsProcessRunning 100 w = false /\
  (Cmd.runStop Scenario.pm false (Some "web") w).2
    = Cmd.Return [("web", None)] /\
  trace (Cmd.runStop Scenario.pm false (Some "web") w).1
    = [EvKill 100 SIGTERM false; EvKill 100 SIGKILL false; EvSleep 100;
       EvOpenTrunc "/srv/app/.sbox/processes.json" true;
       EvWrite "/srv/app/.sbox/processes.json";
       EvClose "/srv/app/.sbox/processes.json"].
Proof. intros w. repeat split; reflexivity. Qed.

(** C3, amended: when the table loads, UpdateProcessStatus sets to "stopped"
    every record that says "running" while the probe finds its pid dead,
    leaves every other record as it is, returns that table, and calls
    SaveProcesses with it exactly when some record changed.  The listings go
    through it: after a tracked process has exited, [ps --all] shows its
    record as "stopped", [ps] and the running count of [status] leave it
    out.  (Stop does not reconcile; it acts on the stored status.) *)
Theorem UpdateProcessStatus_reconciles pm w ps :
  LoadProcesses w = Ok ps ->
  let ps' := map (System.settle w) ps in
  let changed := existsb (System.stale w) ps in
  let w' := if changed then (SaveProcesses pm ps' w).1 else w in
  let live := List.filter
                (fun p => is_running p && IsProcessRunning (PID p) w) ps' in
  UpdateProcessStatus pm w = (w', Ok ps') /\
  (changed = true <-> ps' <> ps) /\
  Cmd.runPs pm true w = (w', Cmd.Return ps') /\
  Cmd.runPs pm false w = (w', Cmd.Return live) /\
  (Cmd.runStatus pm w).2.1 = length live /\
  (forall p, In p ps ->
     System.stale w p = true ->
     In (set_Status "stopped" p) ps' /\ ~ In p live) /\
  (forall p, In p ps -> System.stale w p = false -> In p ps').
Proof.
  intros Hload ps' changed w' live.
  pose proof (UpdateProcessStatus_settles pm w ps Hload) as Hupd.
  pose proof (GetRunningProcesses_settles pm w ps Hload) as Hrun.
  rewrite Hupd in Hrun. simpl in Hrun.
  split; [exact Hupd|]. split; [apply settle_changes|].
  split; [unfold Cmd.runPs; now rewrite Hupd|].
  split; [unfold Cmd.runPs; now rewrite Hrun|].
  split; [unfold Cmd.runStatus; now rewrite Hrun|].
  split.
  - intros p Hin Hs. split.
    + apply in_map_iff. exists p. split; [|assumption].
      unfold System.settle. now rewrite Hs.
    + intros Hlive. apply filter_In in Hlive as [_ Hl].
      unfold System.stale in Hs.
      apply andb_true_iff in Hs as [_ Hs], Hl as [_ Hl].
      rewrite Hl in Hs. discriminate.
  - intros p Hin Hs. apply in_map_iff. exists p. split; [|assumption].
    unfold System.settle. now rewrite Hs.
Qed.

Lemma UpdateProcessStatus_reconciles_witness :
  let w := Scenario.world_of
             [Scenario.record "web" 100 "running";
              Scenario.record "api" 200 "running"]
             {[ 200%Z := Scenario.obedient ]} in
  (UpdateProcessStatus Scenario.pm w).2
  = Ok [Scenario.record "web" 100 "stopped";
        Scenario.record "api" 200 "running"].
Proof.
  intros w.
  pose proof (UpdateProcessStatus_reconciles Scenario.pm w
                [Scenario.record "web" 100 "running";
                 Scenario.record "api" 200 "running"] eq_refl) as H.
  simpl in H. destruct H as [H _]. rewrite H. reflexivity.
Defined.

(** ** Stop on a running record (C6) *)

Lemma LoadProcesses_same w w' :
  proc_file w' = proc_file w -> faults w' = faults w ->
  LoadProcesses w' = LoadProcesses w.
Proof. intros Hf Hfl. unfold LoadProcesses. now rewrite Hf, Hfl. Qed.

Lemma find_stop_first name ps p :
  List.find (fun q => String.eqb (Name q) name) ps = Some p ->
  List.find (fun q => String.eqb (Name q) name)
    (stop_first (fun q => String.eqb (Name q) name) ps)
  = Some (set_Status "stopped" p).
Proof.
  induction ps as [|q ps IH]; simpl; [discriminate|].
  destruct (Name q =? name)%string eqn:E; simpl; rewrite E.
  - now intros [= ->].
  - exact IH.
Qed.

Lemma GetProcess_loaded name w info :
  GetProcess name w = Ok info ->
  exists ps, LoadProcesses w = Ok ps /\
    List.find (fun q => String.eqb (Name q) name) ps = Some info.
Proof.
  unfold GetProcess. destruct (LoadProcesses w) as [ps|e]; [|discriminate].
  destruct (List.find _ ps) as [p|] eqn:E; [|discriminate].
  intros [= ->]. eauto.
Qed.

Lemma LoadProcesses_readable w ps :
  LoadProcesses w = Ok ps -> read_fault (faults w) = false.
Proof.
  unfold LoadProcesses. now destruct (read_fault (faults w)).
Qed.

(** The world after the signalling part of StopProcess. *)
Lemma stop_signals pid w :
  let alive := IsProcessRunning pid w in
  let '(w1, failed) := os_Signal pid SIGTERM w in
  let w2 := if failed then (os_Signal pid SIGKILL w1).1 else w1 in
  proc_file w2 = proc_file w /\ faults w2 = faults w /\
  trace w2 = trace w ++ [EvKill pid SIGTERM alive]
               ++ (if alive then [] else [EvKill pid SIGKILL false]).
Proof.
  unfold IsProcessRunning, os_Signal.
  destruct (procs w !! pid) as [p|] eqn:E; simpl.
  - destruct (traps_sigterm p), (lingers p); simpl; repeat split; reflexivity.
  - rewrite E. simpl. now rewrite <- app_assoc.
Qed.





(** ** The watcher (C8) *)

Lemma stop_first_lookup f ps i p :
  ps !! i = Some p ->
  stop_first f ps !! i
  = Some (if f p && forallb (fun q => negb (f q)) (take i ps)
          then set_Status "stopped" p else p).
Proof.
  revert i. induction ps as [|q ps IH]; intros i Hi; [discriminate|].
  destruct i as [|i]; simpl in *.
  - injection Hi as ->. rewrite andb_true_r. now destruct (f p).
  - destruct (f q); simpl.
    + now rewrite Hi, andb_false_r.
    + now apply IH.
Qed.

(** C8 is not met by the code: the watcher looks for its pid alone and
    stops at the first record that carries it.  After "web" ran and ended as
    pid 100 and "api" was started and got pid 100 anew, the watcher of
    "api", once its child is gone, finds the record of "web" first and
    leaves the record of "api", the one of its own name and pid, at
    "running". *)
Theorem watcher_finds_other_name :
  System.reachable Scenario.pm Scenario.api_exited /\
  watchers Scenario.api_exited = [Scenario.api_watcher] /\
  IsProcessRunning 100 Scenario.api_exited = false /\
  System.stored Scenario.api_exited
    = [Scenario.record "web" 100 "stopped";
       Scenario.record "api" 100 "running"] /\
  System.stored
    (watcher_exit Scenario.pm Scenario.api_watcher Scenario.api_exited)
    = [Scenario.record "web" 100 "stopped";
       Scenario.record "api" 100 "running"].
Proof.
  split.
  { exists Scenario.fresh. split; [repeat split; reflexivity|].
    apply (rtc_l _ _ Scenario.web_started).
    { apply System.step_StartDaemon; [exact I|].
      intros pid proc _. reflexivity. }
    apply (rtc_l _ _ Scenario.web_exited).
    { apply System.step_environment; vm_compute; reflexivity. }
    apply (rtc_l _ _ Scenario.web_watched).
    { apply (System.step_watcher Scenario.pm _ 0 Scenario.web_watcher);
        vm_compute; reflexivity. }
    apply (rtc_l _ _ Scenario.api_started).
    { apply System.step_StartDaemon; [exact I|].
      intros pid proc [= <- _]. vm_compute. reflexivity. }
    apply rtc_once. apply System.step_environment; vm_compute; reflexivity. }
  split; [vm_compute; reflexivity|]. split; [vm_compute; reflexivity|].
  split; vm_compute; reflexivity.
Qed.

(** What the watcher does in general once its child has terminated: it
    closes the log file handle and, the table loading and saving, sets to
    "stopped" the first record that carries the tracked pid; every other
    record, and so every record with another pid, such as that of a newer
    launch of the same name, is left as it is. *)
Lemma watcher_exit_stops_first_pid pm wt w ps :
  LoadProcesses w = Ok ps ->
  write_fault (faults w) = false ->
  let tracked := fun p => (PID p =? PID (w_info wt))%Z in
  let w' := watcher_exit pm wt w in
  handles w' !! w_fd wt = None /\
  System.stored w' = stop_first tracked ps /\
  (forall i p, ps !! i = Some p ->
     System.stored w' !! i
     = Some (if tracked p && forallb (fun q => negb (tracked q)) (take i ps)
             then set_Status "stopped" p else p)) /\
  (forall i p, ps !! i = Some p -> PID p <> PID (w_info wt) ->
     System.stored w' !! i = Some p).
Proof.
  intros Hload Hw tracked w'.
  assert (Hstored : System.stored w' = stop_first tracked ps).
  { subst w'. unfold watcher_exit.
    rewrite (LoadProcesses_same w (close_handle (w_fd wt) w)), Hload
      by reflexivity.
    rewrite SaveProcesses_stored_fixed; [simpl; now rewrite Hw|].
    apply json_fixed_stop_first, (LoadProcesses_fixed w ps Hload). }
  split.
  - subst w'. unfold watcher_exit.
    destruct (SaveProcesses_rest pm
                (stop_first (fun p => (PID p =? PID (w_info wt))%Z)
                   match LoadProcesses (close_handle (w_fd wt) w) with
                   | Ok qs => qs
                   | Err _ => []
                   end)
                (close_handle (w_fd wt) w)) as (_ & _ & _ & Hh & _).
    rewrite Hh. simpl. apply lookup_delete_eq.
  - split; [exact Hstored|]. rewrite Hstored. split.
    + intros i p Hi. now apply stop_first_lookup.
    + intros i p Hi Hne. rewrite (stop_first_lookup tracked ps i p Hi).
      subst tracked. simpl.
      now rewrite (proj2 (Z.eqb_neq _ _) Hne).
Qed.

(** ** The log reader (C7, C10) *)

Lemma wrap_in_range z : GoInt.in_range z -> GoInt.wrap z = z.
Proof.
  unfold GoInt.in_range, GoInt.min_int, GoInt.max_int, GoInt.wrap.
  intros H. rewrite Z.mod_small; lia.
Qed.

(** Where the subtraction does not overflow and no line is too long,
    [tailLines] prints the last [n] lines, all of them when there are fewer,
    and none when [n] is not positive. *)
Lemma tailLines_in_range filename n w data lines :
  log_files w !! filename = Some data ->
  Bufio.scan_lines data = (lines, None) ->
  GoInt.in_range (Z.of_nat (length lines) - n) ->
  tailLines filename n w
  = (drop (length lines - Z.to_nat n) lines, None) /\
  ((n <= 0)%Z -> tailLines filename n w = ([], None)).
Proof.
  intros Hfile Hscan Hrange. unfold tailLines, GoInt.sub.
  rewrite Hfile, Hscan, (wrap_in_range _ Hrange). simpl.
  clear Hfile Hscan Hrange.
  destruct (Z.ltb_spec (Z.of_nat (length lines) - n) 0) as [Hlt|Hge].
  - split.
    + assert (E : (length lines - Z.to_nat n = 0)%nat) by lia.
      now rewrite E.
    + intros Hn. exfalso. lia.
  - split.
    + destruct (Z.le_gt_cases 0 n) as [Hn|Hn].
      * assert (E : Z.to_nat (Z.of_nat (length lines) - n)
                    = (length lines - Z.to_nat n)%nat) by lia.
        now rewrite E.
      * f_equal. rewrite !drop_ge; [reflexivity|lia|lia].
    + intros Hn. f_equal. apply drop_ge. lia.
Qed.

Lemma ReadLogs_missing pm name n follow w :
  log_files w !! GetLogFile pm name = None ->
  ReadLogs pm name n follow w = Printed [] (Some (ErrNoLogs name)).
Proof. intros H. unfold ReadLogs. now rewrite H. Qed.

(** *** The Scanner on text made of plain lines *)

Section Scanner.

Import Bufio.

Lemma scan_loop_eq data tok held acc :
  scan_loop data tok held acc
  = if (MaxScanTokenSize <=? held)%Z then (rev' acc, Some ErrTooLong)
    else
      match data with
      | EmptyString =>
          if (held =? 0)%Z then (rev' acc, None)
          else (rev' (dropCR tok :: acc), None)
      | String c rest =>
          if Ascii.eqb c newline
          then scan_loop rest [] 0%Z (dropCR tok :: acc)
          else scan_loop rest (c :: tok) (held + 1)%Z acc
      end.
Proof. destruct data; reflexivity. Qed.

Lemma append_cons c (l r : string) :
  (String c l ++ r)%string = String c (l ++ r).
Proof. reflexivity. Qed.

Lemma append_empty_l (r : string) : ("" ++ r)%string = r.
Proof. reflexivity. Qed.

Lemma scan_loop_line l : forall rest tok held acc,
  no_newline l = true ->
  (0 <= held)%Z ->
  (held + Z.of_nat (String.length l) < MaxScanTokenSize)%Z ->
  scan_loop (l ++ String newline rest) tok held acc
  = scan_loop rest [] 0%Z (dropCR (rev_onto l tok) :: acc).
Proof.
  induction l as [|c l IH]; intros rest tok held acc Hnl Hheld Hlen;
    [rewrite append_empty_l|rewrite append_cons];
    rewrite scan_loop_eq; simpl in *.
  - destruct (Z.leb_spec MaxScanTokenSize held) as [Hle|_]; [lia|].
    reflexivity.
  - destruct (Z.leb_spec MaxScanTokenSize held) as [Hle|_]; [lia|].
    apply andb_true_iff in Hnl as [Hc Hnl].
    apply negb_true_iff in Hc. rewrite Hc.
    apply IH; [assumption|lia|lia].
Qed.

Lemma string_of_rev_onto l : forall tok acc,
  string_of_rev (rev_onto l tok) acc = string_of_rev tok (l ++ acc).
Proof.
  induction l as [|c l IH]; intros tok acc; simpl; [reflexivity|].
  now rewrite IH, append_cons.
Qed.

Lemma append_empty (l : string) : (l ++ "")%string = l.
Proof.
  induction l as [|c l IH]; [reflexivity|]. now rewrite append_cons, IH.
Qed.

Lemma dropCR_plain l : ends_with_cr l = false -> dropCR (rev_onto l []) = l.
Proof.
  unfold ends_with_cr, dropCR. intros Hcr.
  pose proof (string_of_rev_onto l [] "") as Hs. simpl in Hs.
  rewrite append_empty in Hs.
  destruct (rev_onto l []) as [|c cs]; [now rewrite <- Hs|].
  now rewrite Hcr.
Qed.

Lemma scan_loop_unlines ls : forall acc,
  Forall (fun l => plain_line l = true) ls ->
  scan_loop (unlines ls) [] 0%Z acc = (rev' (rev ls ++ acc), None).
Proof.
  induction ls as [|l ls IH]; intros acc Hplain.
  - reflexivity.
  - inversion Hplain as [|? ? Hl Hls]; subst. simpl unlines.
    unfold plain_line in Hl.
    apply andb_true_iff in Hl as [Hl Hlen].
    apply andb_true_iff in Hl as [Hnl Hcr].
    apply negb_true_iff in Hcr. apply Z.ltb_lt in Hlen.
    rewrite scan_loop_line; [|assumption|lia|lia].
    rewrite (dropCR_plain l Hcr), (IH _ Hls). simpl.
    now rewrite <- app_assoc.
Qed.

Lemma scan_lines_unlines ls :
  Forall (fun l => plain_line l = true) ls ->
  scan_lines (unlines ls) = (ls, None).
Proof.
  intros Hplain. unfold scan_lines. rewrite (scan_loop_unlines ls [] Hplain).
  unfold rev'. now rewrite rev_append_rev, !app_nil_r, rev_involutive.
Qed.

End Scanner.

(** X17: on a log of plain lines and for a count between 0 and the largest
    int, tail prints the last [n] lines in their order, all of them when
    there are fewer. *)
Lemma ReadLogs_plain_lines pm name n w ls :
  log_files w !! GetLogFile pm name = Some (Bufio.unlines ls) ->
  Forall (fun l => Bufio.plain_line l = true) ls ->
  (0 <= n <= GoInt.max_int)%Z ->
  (Z.of_nat (length ls) <= GoInt.max_int)%Z ->
  ReadLogs pm name n false w
  = Printed (drop (length ls - Z.to_nat n) ls) None.
Proof.
  intros Hfile Hplain Hn Hlen. unfold ReadLogs. rewrite Hfile.
  assert (Hrange : GoInt.in_range (Z.of_nat (length ls) - n)).
  { unfold GoInt.in_range, GoInt.min_int, GoInt.max_int in *. lia. }
  destruct (tailLines_in_range (GetLogFile pm name) n w (Bufio.unlines ls) ls
              Hfile (scan_lines_unlines ls Hplain) Hrange) as [-> _].
  reflexivity.
Qed.

(** C7 is not met by the code: a log whose second line is 64 KiB long has
    three lines, yet tail with n = 10 prints the first line only and returns
    the Scanner's token-too-long error. *)
Theorem ReadLogs_long_line :
  ReadLogs Scenario.pm "web" 10 false Scenario.long_log
  = Printed ["ready"] (Some (ErrScan Bufio.ErrTooLong)).
Proof. vm_compute. reflexivity. Qed.

(** C10 is not met by the code: for n the least 64-bit integer the
    subtraction [len(lines) - n] wraps around to a negative start, which is
    clamped to 0, and the whole log is printed. *)
Theorem ReadLogs_min_int :
  ReadLogs Scenario.pm "web" GoInt.min_int false Scenario.short_log
  = Printed ["ready"] None.
Proof. vm_compute. reflexivity. Qed.

(** * Further properties of the process manager *)

(** ** The store: insert, lookup, remove *)

Section StoreRoundTrips.

Variable pm : ProcessManager.

Lemma find_name_app name ps qs :
  List.find (fun p => String.eqb (Name p) name) (ps ++ qs)
  = match List.find (fun p => String.eqb (Name p) name) ps with
    | Some p => Some p
    | None => List.find (fun p => String.eqb (Name p) name) qs
    end.
Proof.
  induction ps as [|p ps IH]; simpl; [reflexivity|].
  now destruct (Name p =? name)%string.
Qed.

Lemma find_without_same name ps :
  List.find (fun p => String.eqb (Name p) name) (without_name name ps) = None.
Proof.
  apply find_name_absent. intros Hin.
  apply without_name_In in Hin as [_ Hne]. now apply Hne.
Qed.

Lemma find_without_other name other ps :
  other <> name ->
  List.find (fun p => String.eqb (Name p) other) (without_name name ps)
  = List.find (fun p => String.eqb (Name p) other) ps.
Proof.
  intros Hne. unfold without_name.
  induction ps as [|p ps IH]; simpl; [reflexivity|].
  destruct (Name p =? name)%string eqn:E; simpl.
  - apply String.eqb_eq in E.
    assert (Hp : (Name p =? other)%string = false).
    { apply String.eqb_neq. congruence. }
    now rewrite Hp.
  - now rewrite IH.
Qed.

Lemma without_name_absent name ps :
  ~ In name (map Name ps) -> without_name name ps = ps.
Proof.
  unfold without_name. induction ps as [|p ps IH]; simpl; [reflexivity|].
  intros Hn. destruct (Name p =? name)%string eqn:E.
  - apply String.eqb_eq in E. exfalso. apply Hn. now left.
  - simpl. f_equal. apply IH. intros Hin. apply Hn. now right.
Qed.

(** The table that loads after records of a loaded table, less those of one
    name, were saved with a new record behind them. *)
Lemma load_upsert w' name ps info :
  proc_file w' = Some (Json (without_name name ps ++ [info])) ->
  read_fault (faults w') = false ->
  map json_record ps = ps ->
  LoadProcesses w' = Ok (without_name name ps ++ [json_record info]).
Proof.
  intros Hfile Hr Hfix. unfold LoadProcesses. rewrite Hr, Hfile. simpl.
  now rewrite map_app, (json_fixed_without name ps Hfix).
Qed.

Lemma find_upsert name ps info :
  Name info = name ->
  List.find (fun p => String.eqb (Name p) name) (without_name name ps ++ [info])
  = Some info.
Proof.
  intros Hname. rewrite find_name_app, find_without_same. simpl.
  now rewrite Hname, String.eqb_refl.
Qed.

Lemma utf8_record_Name info :
  Json.utf8 (Name info) -> Name (json_record info) = Name info.
Proof. intros H. now rewrite json_record_Name. Qed.

End StoreRoundTrips.

(** X1: with the process file readable and writable, a record added with
    AddProcess under a name that is valid UTF-8 is the one GetProcess then
    returns for that name, its strings as the JSON coding leaves them, and
    where the table loaded before, the lookup of every other name gives what
    it gave before. *)
Theorem AddProcess_then_GetProcess pm info w :
  read_fault (faults w) = false ->
  write_fault (faults w) = false ->
  Json.utf8 (Name info) ->
  (AddProcess pm info w).2 = None /\
  GetProcess (Name info) (AddProcess pm info w).1 = Ok (json_record info) /\
  (forall ps other,
     LoadProcesses w = Ok ps -> other <> Name info ->
     GetProcess other (AddProcess pm info w).1 = GetProcess other w).
Proof.
  intros Hr Hw Hname.
  pose proof (utf8_record_Name info Hname) as Hrec.
  assert (Hload' : LoadProcesses (AddProcess pm info w).1
                   = Ok (without_name (Name info)
                           match LoadProcesses w with
                           | Ok ps => ps
                           | Err _ => []
                           end ++ [json_record info])).
  { apply load_upsert.
    - unfold AddProcess. now rewrite SaveProcesses_proc_file, Hw.
    - unfold AddProcess. now rewrite (proj1 (SaveProcesses_rest pm _ w)).
    - apply loaded_fixed. }
  split; [unfold AddProcess; now rewrite SaveProcesses_error, Hw|]. split.
  - unfold GetProcess. rewrite Hload'. now rewrite (find_upsert _ _ _ Hrec).
  - intros ps other Hload Hne. unfold GetProcess.
    rewrite Hload', Hload.
    rewrite find_name_app, (find_without_other _ _ _ Hne). cbn [List.find].
    assert (Hi : (Name (json_record info) =? other)%string = false).
    { apply String.eqb_neq. congruence. }
    rewrite Hi. now destruct (List.find _ ps).
Qed.

Lemma AddProcess_then_GetProcess_witness :
  GetProcess "api"
    (AddProcess Scenario.pm (Scenario.record "api" 200 "running")
       Scenario.one_added).1
  = Ok (json_record (Scenario.record "api" 200 "running")).
Proof.
  apply (AddProcess_then_GetProcess Scenario.pm
           (Scenario.record "api" 200 "running") Scenario.one_added);
    reflexivity.
Defined.

(** X2: where the table loads and can be written, RemoveProcess succeeds,
    the removed name is no longer found, every other name is found as
    before, and removing a name the table does not hold leaves the records
    as they are. *)
Theorem RemoveProcess_then_GetProcess pm name w ps :
  LoadProcesses w = Ok ps ->
  write_fault (faults w) = false ->
  (RemoveProcess pm name w).2 = None /\
  GetProcess name (RemoveProcess pm name w).1 = Err (ErrNotFound name) /\
  (forall other, other <> name ->
     GetProcess other (RemoveProcess pm name w).1 = GetProcess other w) /\
  (~ In name (map Name ps) ->
     LoadProcesses (RemoveProcess pm name w).1 = Ok ps).
Proof.
  intros Hload Hw.
  pose proof (LoadProcesses_readable w ps Hload) as Hr.
  pose proof (json_fixed_without name ps (LoadProcesses_fixed w ps Hload))
    as Hfix.
  unfold RemoveProcess. rewrite Hload.
  split; [now rewrite SaveProcesses_error, Hw|]. split; [|split].
  - unfold GetProcess. rewrite (SaveProcesses_load_fixed pm _ w Hfix Hr Hw).
    now rewrite find_without_same.
  - intros other Hne. unfold GetProcess.
    rewrite (SaveProcesses_load_fixed pm _ w Hfix Hr Hw), Hload.
    now rewrite (find_without_other _ _ _ Hne).
  - intros Hn. rewrite (SaveProcesses_load_fixed pm _ w Hfix Hr Hw).
    now rewrite (without_name_absent name ps Hn).
Qed.

Lemma RemoveProcess_then_GetProcess_witness :
  GetProcess "web" (RemoveProcess Scenario.pm "web" Scenario.one_added).1
  = Err (ErrNotFound "web").
Proof.
  apply (RemoveProcess_then_GetProcess Scenario.pm "web" Scenario.one_added
           [Scenario.record "web" 100 "running"]); reflexivity.
Defined.

(** ** What reconciliation and stop change *)

Section StatusOnly.

Import System.

Lemma stale_same_procs w w' p : procs w' = procs w -> stale w' p = stale w p.
Proof. intros H. unfold stale, IsProcessRunning. now rewrite H. Qed.

Lemma settled_has_no_stale w ps : existsb (stale w) (map (settle w) ps) = false.
Proof.
  induction ps as [|p ps IH]; simpl; [reflexivity|].
  now rewrite settle_not_stale, IH.
Qed.

Lemma no_stale_settle w ps :
  existsb (stale w) ps = false -> map (settle w) ps = ps.
Proof.
  induction ps as [|p ps IH]; simpl; [reflexivity|].
  intros H. apply orb_false_iff in H as [Hp Hps].
  unfold settle at 1. now rewrite Hp, (IH Hps).
Qed.

Lemma only_stopped_refl ps : only_stopped ps ps.
Proof. induction ps; constructor; auto. Qed.

Lemma only_stopped_settle w ps : only_stopped ps (map (settle w) ps).
Proof.
  induction ps as [|p ps IH]; simpl; constructor; [|assumption].
  unfold settle. destruct (stale w p); auto.
Qed.

Lemma only_stopped_stop_first f ps : only_stopped ps (stop_first f ps).
Proof.
  induction ps as [|p ps IH]; simpl; [constructor|].
  destruct (f p); constructor.
  - now right.
  - apply only_stopped_refl.
  - now left.
  - exact IH.
Qed.

Lemma only_stopped_save pm ps w :
  map json_record ps = ps ->
  only_stopped (stored w) ps ->
  only_stopped (stored w) (stored (SaveProcesses pm ps w).1).
Proof.
  intros Hfix H. rewrite (SaveProcesses_stored_fixed pm ps w Hfix).
  destruct (write_fault (faults w)); [apply only_stopped_refl|assumption].
Qed.

Lemma stored_same w w' : proc_file w' = proc_file w -> stored w' = stored w.
Proof. unfold stored. now intros ->. Qed.

End StatusOnly.

(** X3: reconciliation is idempotent.  Where the table loads and can be
    written, a second UpdateProcessStatus right after the first returns the
    same table and leaves the world, the process file and the trace of calls
    included, as the first left it. *)
Theorem UpdateProcessStatus_idempotent pm w ps :
  LoadProcesses w = Ok ps ->
  write_fault (faults w) = false ->
  UpdateProcessStatus pm (UpdateProcessStatus pm w).1
  = UpdateProcessStatus pm w.
Proof.
  intros Hload Hw.
  pose proof (LoadProcesses_readable w ps Hload) as Hr.
  rewrite (UpdateProcessStatus_settles pm w ps Hload). simpl.
  destruct (existsb (System.stale w) ps) eqn:Hch.
  - set (ps' := map (System.settle w) ps).
    set (w1 := (SaveProcesses pm ps' w).1).
    assert (Hfix : map json_record ps' = ps').
    { apply (json_fixed_settle w ps), (LoadProcesses_fixed w ps Hload). }
    assert (Hload1 : LoadProcesses w1 = Ok ps')
      by apply (SaveProcesses_load_fixed pm ps' w Hfix Hr Hw).
    assert (Hprocs : procs w1 = procs w) by apply SaveProcesses_rest.
    rewrite (UpdateProcessStatus_settles pm w1 ps' Hload1).
    assert (Hst : forall qs, existsb (System.stale w1) qs
                             = existsb (System.stale w) qs).
    { induction qs as [|q qs IH]; simpl; [reflexivity|].
      now rewrite IH, (stale_same_procs w w1 q Hprocs). }
    assert (Hnone : existsb (System.stale w1) ps' = false).
    { rewrite Hst. apply settled_has_no_stale. }
    now rewrite Hnone, (no_stale_settle w1 ps' Hnone).
  - rewrite (no_stale_settle w ps Hch).
    rewrite (UpdateProcessStatus_settles pm w ps Hload), Hch.
    now rewrite (no_stale_settle w ps Hch).
Qed.

Lemma UpdateProcessStatus_idempotent_witness :
  let w := Scenario.world_of
             [Scenario.record "web" 100 "running";
              Scenario.record "api" 200 "running"]
             {[ 200%Z := Scenario.obedient ]} in
  UpdateProcessStatus Scenario.pm (UpdateProcessStatus Scenario.pm w).1
  = UpdateProcessStatus Scenario.pm w.
Proof.
  intros w.
  apply (UpdateProcessStatus_idempotent Scenario.pm w
           [Scenario.record "web" 100 "running";
            Scenario.record "api" 200 "running"]); reflexivity.
Defined.

(** X4: reconciliation, the running-process listing and stop never add,
    drop or reorder records of the stored table, and change no field of a
    record but its status, which they only ever set to "stopped". *)
Theorem status_is_all_that_changes pm name w :
  System.only_stopped (System.stored w)
    (System.stored (UpdateProcessStatus pm w).1) /\
  System.only_stopped (System.stored w)
    (System.stored (GetRunningProcesses pm w).1) /\
  System.only_stopped (System.stored w)
    (System.stored (StopProcess pm name w).1).
Proof.
  assert (Hupd : System.only_stopped (System.stored w)
                   (System.stored (UpdateProcessStatus pm w).1)).
  { destruct (LoadProcesses w) as [ps|e] eqn:Hload.
    - rewrite (UpdateProcessStatus_settles pm w ps Hload). simpl.
      destruct (existsb (System.stale w) ps); [|apply only_stopped_refl].
      apply only_stopped_save.
      + apply json_fixed_settle, (LoadProcesses_fixed w ps Hload).
      + rewrite <- (LoadProcesses_stored w ps Hload).
        apply only_stopped_settle.
    - unfold UpdateProcessStatus. rewrite Hload. apply only_stopped_refl. }
  split; [exact Hupd|]. split.
  - now rewrite GetRunningProcesses_world.
  - unfold StopProcess.
    destruct (GetProcess name w) as [info|e] eqn:Hget;
      [|apply only_stopped_refl].
    destruct (negb (is_running info)); [apply only_stopped_refl|].
    destruct (GetProcess_loaded name w info Hget) as (ps & Hload & _).
    pose proof (stop_signals (PID info) w) as Hsig. simpl in Hsig.
    destruct (os_Signal (PID info) SIGTERM w) as [w1 failed].
    set (w2 := if failed then (os_Signal (PID info) SIGKILL w1).1 else w1) in *.
    destruct Hsig as (Hfile & Hfaults & _).
    set (w3 := time_Sleep 100 w2).
    assert (Hfile3 : proc_file w3 = proc_file w) by exact Hfile.
    assert (Hfaults3 : faults w3 = faults w) by exact Hfaults.
    assert (Hload3 : LoadProcesses w3 = Ok ps).
    { rewrite <- Hload. now apply LoadProcesses_same. }
    rewrite Hload3. cbn [fst].
    rewrite SaveProcesses_stored_fixed
      by apply json_fixed_stop_first, (LoadProcesses_fixed w ps Hload).
    rewrite Hfaults3, (stored_same w w3 Hfile3).
    rewrite <- (LoadProcesses_stored w ps Hload).
    destruct (write_fault (faults w)); [apply only_stopped_refl|].
    apply only_stopped_stop_first.
Qed.

(** X5: when the table cannot be loaded at the moment a watcher's child has
    terminated (the file is unreadable or does not decode) while the file
    can be written, the watcher overwrites the process file with an empty
    table. *)
Theorem watcher_exit_after_failed_load pm wt w e :
  LoadProcesses w = Err e ->
  write_fault (faults w) = false ->
  proc_file (watcher_exit pm wt w) = Some (Json []).
Proof.
  intros Hload Hw. unfold watcher_exit.
  rewrite SaveProcesses_proc_file. simpl. rewrite Hw.
  now rewrite (LoadProcesses_same w (close_handle (w_fd wt) w)), Hload.
Qed.

Lemma watcher_exit_after_failed_load_witness :
  System.stored Scenario.unreadable = [Scenario.record "web" 100 "running"] /\
  proc_file (watcher_exit Scenario.pm Scenario.web_watcher Scenario.unreadable)
  = Some (Json []).
Proof.
  split; [reflexivity|].
  apply (watcher_exit_after_failed_load Scenario.pm Scenario.web_watcher
           Scenario.unreadable ErrReadFile); reflexivity.
Defined.

(** ** The daemon launcher *)

Section Launcher.

Import System.

Lemma string_app_assoc (a b c : string) :
  ((a ++ b) ++ c)%string = (a ++ (b ++ c))%string.
Proof.
  induction a as [|x a IH]; [reflexivity|].
  now rewrite !append_cons, IH.
Qed.

Lemma append_logs_apart path lines : forall w,
  logs_apart w (fold_left (fun w' line => append_log path line w') lines w).
Proof.
  induction lines as [|l lines IH]; intros w; simpl.
  - repeat split.
  - destruct (IH (append_log path l w)) as (H1&H2&H3&H4&H5&H6&H7&H8).
    repeat split; assumption.
Qed.

Lemma append_logs_lookup path lines : forall w old,
  log_files w !! path = Some old ->
  log_files (fold_left (fun w' line => append_log path line w') lines w)
    !! path
  = Some (old ++ fold_right String.append "" lines)%string.
Proof.
  induction lines as [|l lines IH]; intros w old Hold; simpl.
  - now rewrite append_empty.
  - rewrite (IH (append_log path l w) (old ++ l)%string).
    + now rewrite string_app_assoc.
    + unfold append_log. simpl. rewrite lookup_insert_eq. now rewrite Hold.
Qed.

Lemma append_logs_other path other lines : forall w,
  other <> path ->
  log_files (fold_left (fun w' line => append_log path line w') lines w)
    !! other
  = log_files w !! other.
Proof.
  induction lines as [|l lines IH]; intros w Hne; simpl; [reflexivity|].
  rewrite (IH _ Hne). unfold append_log. simpl.
  now apply lookup_insert_ne.
Qed.

End Launcher.

Section StartDaemonShape.

Variable pm : ProcessManager.

(** The world in which [StartDaemon] starts the command: the log file is
    open and carries the new header. *)
Lemma StartDaemon_log_ready name command env workdir child w :
  mkdir_fault (faults w) = false ->
  open_fault (faults w) = false ->
  exists w2,
    (proc_file w2 = proc_file w /\ faults w2 = faults w /\
     procs w2 = procs w /\ watchers w2 = watchers w /\
     trace w2 = trace w /\ now w2 = now w) /\
    handles w2 = <[next_handle w := GetLogFile pm name]> (handles w) /\
    log_files w2 !! GetLogFile pm name
      = Some (default "" (log_files w !! GetLogFile pm name)
              ++ fold_right String.append ""
                   (startup_header command workdir w))%string /\
    (forall other, other <> GetLogFile pm name ->
       log_files w2 !! other = log_files w !! other) /\
    StartDaemon pm name command env workdir child w
    = match child with
      | None => (close_handle (next_handle w) w2, Err ErrStart)
      | Some (pid, proc) =>
          let w3 := emit (EvSpawn pid command)
                         (set_procs (<[pid := proc]> (procs w2)) w2) in
          let info :=
            {| PID := pid; Name := name; Command := command;
               StartTime := now w; Status := "running";
               LogFile := GetLogFile pm name; Project := ProjectName pm |} in
          match AddProcess pm info w3 with
          | (w4, Some e) => (w4, Err (ErrTrack e))
          | (w4, None) =>
              (set_watchers
                 (watchers w4
                  ++ [{| w_info := info; w_fd := next_handle w |}]) w4,
               Ok info)
          end
      end.
Proof.
  intros Hmk Hop.
  set (path := GetLogFile pm name).
  set (w1 := set_handles (<[next_handle w := path]> (handles w))
               (S (next_handle w)) (append_log path "" w)).
  exists (fold_left (fun w' line => append_log path line w')
            (startup_header command workdir w) w1).
  destruct (append_logs_apart path (startup_header command workdir w) w1)
    as (H1 & H2 & H3 & H4 & H5 & H6 & H7 & H8).
  split; [repeat split; assumption|].
  split; [exact H7|]. split; [|split].
  - rewrite (append_logs_lookup path _ w1
               (default "" (log_files w !! path) ++ "")%string).
    + now rewrite append_empty.
    + subst w1. unfold append_log. simpl. apply lookup_insert_eq.
  - intros other Hne. rewrite (append_logs_other path other _ w1 Hne).
    subst w1. unfold append_log. simpl. now apply lookup_insert_ne.
  - unfold StartDaemon. rewrite Hmk, Hop. unfold open_log.
    fold path. fold w1.
    change (startup_header command workdir w1)
      with (startup_header command workdir w).
    destruct child as [[pid proc]|]; [|reflexivity].
    cbv zeta.
    set (w2 := fold_left _ (startup_header command workdir w) w1) in *.
    change (now (emit (EvSpawn pid command)
                   (set_procs (<[pid := proc]> (procs w2)) w2)))
      with (now w2).
    rewrite H6. reflexivity.
Qed.

End StartDaemonShape.

Section StartDaemonFacts.

Variable pm : ProcessManager.

Lemma AddProcess_rest info w :
  let w' := (AddProcess pm info w).1 in
  faults w' = faults w /\ procs w' = procs w /\ watchers w' = watchers w /\
  handles w' = handles w /\ log_files w' = log_files w /\
  next_handle w' = next_handle w /\ now w' = now w.
Proof. unfold AddProcess. apply SaveProcesses_rest. Qed.

Lemma GetProcess_same name w w' :
  proc_file w' = proc_file w -> faults w' = faults w ->
  GetProcess name w' = GetProcess name w.
Proof.
  intros Hf Hfl. unfold GetProcess. now rewrite (LoadProcesses_same w w').
Qed.

End StartDaemonFacts.

Lemma StartDaemon_tracked pm name command env workdir pid proc w :
  mkdir_fault (faults w) = false ->
  open_fault (faults w) = false ->
  write_fault (faults w) = false ->
  let info :=
    {| PID := pid; Name := name; Command := command; StartTime := now w;
       Status := "running"; LogFile := GetLogFile pm name;
       Project := ProjectName pm |} in
  let r := StartDaemon pm name command env workdir (Some (pid, proc)) w in
  r.2 = Ok info /\
  proc_file r.1
    = Some (Json (without_name name
                    match LoadProcesses w with Ok ps => ps | Err _ => [] end
                  ++ [info])) /\
  faults r.1 = faults w /\
  procs r.1 = <[pid := proc]> (procs w) /\
  handles r.1 = <[next_handle w := GetLogFile pm name]> (handles w) /\
  watchers r.1 = watchers w ++ [{| w_info := info; w_fd := next_handle w |}].
Proof.
  intros Hmk Hop Hw info r.
  destruct (StartDaemon_log_ready pm name command env workdir
              (Some (pid, proc)) w Hmk Hop)
    as (w2 & (Hfile & Hfaults & Hprocs & Hwatch & _) & Hh & _ & _ & Heq).
  subst r. rewrite Heq. cbv zeta. fold info.
  set (w3 := emit (EvSpawn pid command)
               (set_procs (<[pid := proc]> (procs w2)) w2)).
  assert (Hw3 : write_fault (faults w3) = false).
  { change (faults w3) with (faults w2). now rewrite Hfaults. }
  assert (Hload3 : LoadProcesses w3 = LoadProcesses w)
    by now apply LoadProcesses_same.
  destruct (AddProcess_rest pm info w3) as (Hf4 & Hp4 & Hw4 & Hh4 & _).
  assert (Herr : (AddProcess pm info w3).2 = None).
  { unfold AddProcess. now rewrite SaveProcesses_error, Hw3. }
  assert (Hfile4 : proc_file (AddProcess pm info w3).1
                   = Some (Json (without_name name
                                   match LoadProcesses w with
                                   | Ok ps => ps
                                   | Err _ => []
                                   end ++ [info]))).
  { unfold AddProcess. now rewrite SaveProcesses_proc_file, Hw3, Hload3. }
  destruct (AddProcess pm info w3) as [w4 [e|]]; [discriminate|].
  simpl in *. repeat split.
  - exact Hfile4.
  - now rewrite Hf4.
  - now rewrite Hp4, Hprocs.
  - now rewrite Hh4.
  - now rewrite Hw4, Hwatch.
Qed.

(** X6: with no fault in the way, a name that is valid UTF-8 and a command
    that starts, StartDaemon returns a record with the pid of the child, the
    name, the command, status "running" and the path of the log; the table
    then holds that record under the name, its strings as the JSON coding
    leaves them, and no other record of that name; the child answers the
    probe, the log handle is open, and a watcher for the record waits last
    in line. *)
Theorem StartDaemon_success pm name command env workdir pid proc w :
  mkdir_fault (faults w) = false ->
  open_fault (faults w) = false ->
  read_fault (faults w) = false ->
  write_fault (faults w) = false ->
  Json.utf8 name ->
  let info :=
    {| PID := pid; Name := name; Command := command; StartTime := now w;
       Status := "running"; LogFile := GetLogFile pm name;
       Project := ProjectName pm |} in
  let r := StartDaemon pm name command env workdir (Some (pid, proc)) w in
  r.2 = Ok info /\
  GetProcess name r.1 = Ok (json_record info) /\
  System.count_name name (System.stored r.1) = 1 /\
  IsProcessRunning pid r.1 = true /\
  handles r.1 !! next_handle w = Some (GetLogFile pm name) /\
  watchers r.1 = watchers w ++ [{| w_info := info; w_fd := next_handle w |}].
Proof.
  intros Hmk Hop Hr Hw Hname info r.
  destruct (StartDaemon_tracked pm name command env workdir pid proc w
              Hmk Hop Hw) as (Hres & Hfile & Hfaults & Hprocs & Hh & Hwatch).
  fold info r in Hres, Hfile, Hfaults, Hprocs, Hh, Hwatch.
  assert (Hrec : Name (json_record info) = name)
    by apply (utf8_record_Name info Hname).
  assert (Hload : LoadProcesses r.1
                  = Ok (without_name name
                          match LoadProcesses w with
                          | Ok ps => ps
                          | Err _ => []
                          end ++ [json_record info])).
  { apply load_upsert; [exact Hfile|now rewrite Hfaults|apply loaded_fixed]. }
  split; [exact Hres|]. split; [|split; [|split; [|split]]].
  - unfold GetProcess. rewrite Hload. now rewrite (find_upsert _ _ _ Hrec).
  - rewrite <- (LoadProcesses_stored r.1 _ Hload).
    pose proof (upsert_count (json_record info)
                  match LoadProcesses w with Ok ps => ps | Err _ => [] end)
      as Hc.
    now rewrite Hrec in Hc.
  - unfold IsProcessRunning. now rewrite Hprocs, lookup_insert_eq.
  - rewrite Hh. apply lookup_insert_eq.
  - exact Hwatch.
Qed.

Lemma StartDaemon_success_witness :
  (StartDaemon Scenario.pm "web" "sleep 5" [] "/srv/app"
     (Some (100%Z, Scenario.obedient)) Scenario.fresh).2
  = Ok (Scenario.record "web" 100 "running").
Proof.
  destruct (StartDaemon_success Scenario.pm "web" "sleep 5" [] "/srv/app" 100
              Scenario.obedient Scenario.fresh eq_refl eq_refl eq_refl eq_refl
              eq_refl)
    as (H & _).
  exact H.
Defined.

(** X7: once the log directory and the log file can be opened, StartDaemon
    appends its header to what the log file of the name held, the file at
    the cleaned path GetLogFile gives, and leaves the log of every other
    name, unless it is that same file, as it was, whether or not the command
    then starts and is tracked. *)
Theorem StartDaemon_appends_header pm name command env workdir child w :
  mkdir_fault (faults w) = false ->
  open_fault (faults w) = false ->
  let w' := (StartDaemon pm name command env workdir child w).1 in
  log_files w' !! GetLogFile pm name
    = Some (default "" (log_files w !! GetLogFile pm name)
            ++ fold_right String.append ""
                 (startup_header command workdir w))%string /\
  (forall other, GetLogFile pm other <> GetLogFile pm name ->
     log_files w' !! GetLogFile pm other
     = log_files w !! GetLogFile pm other).
Proof.
  intros Hmk Hop w'.
  destruct (StartDaemon_log_ready pm name command env workdir child w Hmk Hop)
    as (w2 & _ & _ & Hlog & Hother & Heq).
  assert (Hlogs : log_files w' = log_files w2).
  { subst w'. rewrite Heq. destruct child as [[pid proc]|]; [|reflexivity].
    cbv zeta.
    set (w3 := emit _ _). set (info := Build_ProcessInfo _ _ _ _ _ _ _).
    destruct (AddProcess_rest pm info w3) as (_ & _ & _ & _ & Hl & _).
    destruct (AddProcess pm info w3) as [w4 [e|]]; simpl in *; exact Hl. }
  rewrite Hlogs. split; [exact Hlog|].
  intros other Hne. now apply Hother.
Qed.

Lemma StartDaemon_appends_header_witness :
  GetLogFile Scenario.pm "./web" = "/srv/app/.sbox/logs/web.log" /\
  log_files
    (StartDaemon Scenario.pm "./web" "sleep 9" [] "/srv/app" None
       Scenario.short_log).1
    !! GetLogFile Scenario.pm "web"
  = Some ("ready" ++ nl
          ++ fold_right String.append ""
               (startup_header "sleep 9" "/srv/app" Scenario.short_log))%string.
Proof.
  split; [reflexivity|].
  apply (StartDaemon_appends_header Scenario.pm "./web" "sleep 9" []
           "/srv/app" None Scenario.short_log); reflexivity.
Defined.

(** X8: when the command cannot be started, StartDaemon fails with the start
    error and leaves no trace in the table, the processes, the watchers or
    the calls issued, and the log handle it opened is closed again. *)
Theorem StartDaemon_start_failure pm name command env workdir w :
  mkdir_fault (faults w) = false ->
  open_fault (faults w) = false ->
  let r := StartDaemon pm name command env workdir None w in
  r.2 = Err ErrStart /\
  proc_file r.1 = proc_file w /\ procs r.1 = procs w /\
  watchers r.1 = watchers w /\ trace r.1 = trace w /\
  handles r.1 = delete (next_handle w) (handles w).
Proof.
  intros Hmk Hop r.
  destruct (StartDaemon_log_ready pm name command env workdir None w Hmk Hop)
    as (w2 & (Hfile & _ & Hprocs & Hwatch & Htrace & _) & Hh & _ & _ & Heq).
  subst r. rewrite Heq. simpl. repeat split; try assumption.
  rewrite Hh. apply delete_insert_eq.
Qed.

Lemma StartDaemon_start_failure_witness :
  (StartDaemon Scenario.pm "web" "sleep 9" [] "/srv/app" None
     Scenario.one_added).2 = Err ErrStart /\
  proc_file (StartDaemon Scenario.pm "web" "sleep 9" [] "/srv/app" None
               Scenario.one_added).1
  = proc_file Scenario.one_added.
Proof.
  destruct (StartDaemon_start_failure Scenario.pm "web" "sleep 9" []
              "/srv/app" Scenario.one_added eq_refl eq_refl)
    as (H1 & H2 & _).
  split; [exact H1|exact H2].
Defined.

(** X9: when the command starts but the process file cannot be written,
    StartDaemon fails with the tracking error while the child runs on: the
    table is as before, no watcher waits for the child, and the log handle
    stays open. *)
Theorem StartDaemon_untracked pm name command env workdir pid proc w :
  mkdir_fault (faults w) = false ->
  open_fault (faults w) = false ->
  write_fault (faults w) = true ->
  let r := StartDaemon pm name command env workdir (Some (pid, proc)) w in
  r.2 = Err (ErrTrack ErrWriteFile) /\
  IsProcessRunning pid r.1 = true /\
  proc_file r.1 = proc_file w /\
  watchers r.1 = watchers w /\
  handles r.1 !! next_handle w = Some (GetLogFile pm name).
Proof.
  intros Hmk Hop Hw r.
  destruct (StartDaemon_log_ready pm name command env workdir
              (Some (pid, proc)) w Hmk Hop)
    as (w2 & (Hfile & Hfaults & Hprocs & Hwatch & _) & Hh & _ & _ & Heq).
  subst r. rewrite Heq. cbv zeta.
  set (info := Build_ProcessInfo _ _ _ _ _ _ _).
  set (w3 := emit (EvSpawn pid command)
               (set_procs (<[pid := proc]> (procs w2)) w2)).
  assert (Hw3 : write_fault (faults w3) = true).
  { change (faults w3) with (faults w2). now rewrite Hfaults. }
  destruct (AddProcess_rest pm info w3) as (_ & Hp4 & Hw4 & Hh4 & _).
  assert (Herr : (AddProcess pm info w3).2 = Some ErrWriteFile).
  { unfold AddProcess. now rewrite SaveProcesses_error, Hw3. }
  assert (Hfile4 : proc_file (AddProcess pm info w3).1 = proc_file w3).
  { unfold AddProcess. now rewrite SaveProcesses_proc_file, Hw3. }
  destruct (AddProcess pm info w3) as [w4 [e|]]; [|discriminate].
  simpl in *. injection Herr as ->. repeat split.
  - unfold IsProcessRunning. rewrite Hp4. now rewrite lookup_insert_eq.
  - now rewrite Hfile4.
  - now rewrite Hw4.
  - rewrite Hh4, Hh. apply lookup_insert_eq.
Qed.

Lemma StartDaemon_untracked_witness :
  (StartDaemon Scenario.pm "web" "sleep 5" [] "/srv/app"
     (Some (100%Z, Scenario.obedient)) Scenario.readonly).2
  = Err (ErrTrack ErrWriteFile) /\
  IsProcessRunning 100
    (StartDaemon Scenario.pm "web" "sleep 5" [] "/srv/app"
       (Some (100%Z, Scenario.obedient)) Scenario.readonly).1 = true.
Proof.
  destruct (StartDaemon_untracked Scenario.pm "web" "sleep 5" [] "/srv/app"
              100 Scenario.obedient Scenario.readonly eq_refl eq_refl eq_refl)
    as (H1 & H2 & _).
  split; [exact H1|exact H2].
Defined.

(** ** Stop, once more *)

Section StopFacts.

Variable pm : ProcessManager.

(** The processes after the signalling part of StopProcess. *)
Lemma stop_signals_procs pid w :
  let '(w1, failed) := os_Signal pid SIGTERM w in
  let w2 := if failed then (os_Signal pid SIGKILL w1).1 else w1 in
  procs w2
  = match procs w !! pid with
    | Some p =>
        if traps_sigterm p || lingers p then procs w
        else delete pid (procs w)
    | None => procs w
    end /\
  watchers w2 = watchers w /\ handles w2 = handles w /\
  log_files w2 = log_files w.
Proof.
  unfold os_Signal.
  destruct (procs w !! pid) as [p|] eqn:E; simpl.
  - destruct (traps_sigterm p), (lingers p); simpl; repeat split; reflexivity.
  - rewrite E. simpl. repeat split; reflexivity.
Qed.

Lemma StopProcess_effect name w ps info :
  LoadProcesses w = Ok ps ->
  List.find (fun q => String.eqb (Name q) name) ps = Some info ->
  is_running info = true ->
  (StopProcess pm name w).2 = None /\
  proc_file (StopProcess pm name w).1
    = (if write_fault (faults w) then proc_file w
       else Some (Json (stop_first (fun q => String.eqb (Name q) name) ps))) /\
  faults (StopProcess pm name w).1 = faults w /\
  procs (StopProcess pm name w).1
    = match procs w !! PID info with
      | Some p =>
          if traps_sigterm p || lingers p then procs w
          else delete (PID info) (procs w)
      | None => procs w
      end.
Proof.
  intros Hload Hfind Hrun.
  assert (Hget : GetProcess name w = Ok info).
  { unfold GetProcess. now rewrite Hload, Hfind. }
  unfold StopProcess. rewrite Hget, Hrun. simpl.
  pose proof (stop_signals (PID info) w) as Hsig. simpl in Hsig.
  pose proof (stop_signals_procs (PID info) w) as Hpr.
  destruct (os_Signal (PID info) SIGTERM w) as [w1 failed].
  set (w2 := if failed then (os_Signal (PID info) SIGKILL w1).1 else w1) in *.
  destruct Hsig as (Hfile & Hfaults & _). destruct Hpr as (Hprocs & _).
  set (w3 := time_Sleep 100 w2).
  assert (Hfile3 : proc_file w3 = proc_file w) by exact Hfile.
  assert (Hfaults3 : faults w3 = faults w) by exact Hfaults.
  assert (Hload3 : LoadProcesses w3 = Ok ps).
  { rewrite <- Hload. now apply LoadProcesses_same. }
  rewrite Hload3. cbn [fst snd].
  destruct (SaveProcesses_rest pm
              (stop_first (fun q => (Name q =? name)%string) ps) w3)
    as (Hf & Hp & _).
  split; [reflexivity|].
  rewrite SaveProcesses_proc_file, Hf, Hp, Hfaults3, Hfile3.
  repeat split. exact Hprocs.
Qed.

(** The table that loads after a stop that went ahead and could save. *)
Lemma StopProcess_load name w ps info :
  LoadProcesses w = Ok ps ->
  List.find (fun q => String.eqb (Name q) name) ps = Some info ->
  is_running info = true ->
  write_fault (faults w) = false ->
  LoadProcesses (StopProcess pm name w).1
  = Ok (stop_first (fun q => String.eqb (Name q) name) ps).
Proof.
  intros Hload Hfind Hrun Hw.
  destruct (StopProcess_effect name w ps info Hload Hfind Hrun)
    as (_ & Hfile & Hfaults & _).
  rewrite Hw in Hfile. unfold LoadProcesses.
  rewrite Hfaults, (LoadProcesses_readable w ps Hload), Hfile. simpl.
  now rewrite (json_fixed_stop_first _ ps (LoadProcesses_fixed w ps Hload)).
Qed.


Lemma StopProcess_refused name w :
  (StopProcess pm name w).2 <> None -> (StopProcess pm name w).1 = w.
Proof.
  unfold StopProcess. destruct (GetProcess name w) as [info|e]; [|reflexivity].
  destruct (negb (is_running info)); [reflexivity|].
  destruct (os_Signal (PID info) SIGTERM w) as [w1 failed]. simpl.
  intros H. now contradiction H.
Qed.

End StopFacts.

(** X10: stop is idempotent in its effect.  After a stop of a running record
    that could save the table, a second stop of the same name fails with the
    not-running error (status "stopped") and changes nothing: no further
    signal is sent. *)
Theorem StopProcess_twice pm name w info :
  GetProcess name w = Ok info ->
  Status info = "running" ->
  write_fault (faults w) = false ->
  StopProcess pm name (StopProcess pm name w).1
  = ((StopProcess pm name w).1, Some (ErrNotRunning name "stopped")).
Proof.
  intros Hget Hst Hw.
  destruct (GetProcess_loaded name w info Hget) as (ps & Hload & Hfind).
  pose proof (StopProcess_load pm name w ps info Hload Hfind
                (is_running_true info Hst) Hw) as Hload'.
  set (w' := (StopProcess pm name w).1) in *.
  assert (Hget' : GetProcess name w' = Ok (set_Status "stopped" info)).
  { unfold GetProcess. rewrite Hload'.
    now rewrite (find_stop_first name ps info Hfind). }
  unfold StopProcess at 1. now rewrite Hget'.
Qed.

Lemma StopProcess_twice_witness :
  let w := Scenario.world_of [Scenario.record "web" 100 "running"]
             {[ 100%Z := Scenario.obedient ]} in
  StopProcess Scenario.pm "web" (StopProcess Scenario.pm "web" w).1
  = ((StopProcess Scenario.pm "web" w).1,
     Some (ErrNotRunning "web" "stopped")).
Proof.
  intros w.
  apply (StopProcess_twice Scenario.pm "web" w
           (Scenario.record "web" 100 "running")); reflexivity.
Defined.



(** ** Stop of all running processes *)

Section StopAll.

Import System.

Variable pm : ProcessManager.

Lemma only_stopped_names ps ps' :
  only_stopped ps ps' -> map Name ps' = map Name ps.
Proof.
  induction 1 as [|p p' ps ps' Hp _ IH]; simpl; [reflexivity|].
  rewrite IH. destruct Hp as [-> | ->]; reflexivity.
Qed.

Lemma only_stopped_trans ps qs rs :
  only_stopped ps qs -> only_stopped qs rs -> only_stopped ps rs.
Proof.
  intros H. revert rs. induction H as [|p q ps qs Hpq _ IH]; intros rs Hqr.
  - inversion Hqr. constructor.
  - inversion Hqr as [|? r ? rs' Hr Hrest]; subst. constructor.
    + destruct Hpq as [-> | ->]; destruct Hr as [-> | ->]; auto.
    + now apply IH.
Qed.

Lemma only_stopped_In ps ps' p' :
  only_stopped ps ps' -> In p' ps' ->
  exists p, In p ps /\ (p' = p \/ p' = set_Status "stopped" p).
Proof.
  induction 1 as [|p q ps qs Hpq _ IH]; simpl; [contradiction|].
  intros [<- | Hin].
  - exists p. split; [now left|assumption].
  - destruct (IH Hin) as (p0 & Hp0 & Hrel). exists p0. split; [now right|].
    assumption.
Qed.

Lemma unique_found n qs info p :
  unique_names qs ->
  List.find (fun q => String.eqb (Name q) n) qs = Some info ->
  In p qs -> Name p = n -> p = info.
Proof.
  unfold unique_names.
  induction qs as [|q qs IH]; simpl; [discriminate|].
  intros Hnd Hfind Hin Hname.
  inversion Hnd as [|? ? Hnotin Hrest]; subst.
  destruct (Name q =? Name p)%string eqn:E.
  - injection Hfind as <-. apply String.eqb_eq in E.
    destruct Hin as [Hq | Hin]; [now symmetry|].
    exfalso. apply Hnotin. rewrite E.
    apply list_elem_of_In, in_map_iff. eauto.
  - destruct Hin as [<- | Hin].
    + now rewrite String.eqb_refl in E.
    + now apply IH.
Qed.

Lemma stop_first_unique_stopped n qs p :
  unique_names qs ->
  In p (stop_first (fun q => String.eqb (Name q) n) qs) ->
  Name p = n -> is_running p = false.
Proof.
  unfold unique_names.
  induction qs as [|q qs IH]; simpl; [contradiction|].
  intros Hnd Hin Hname.
  inversion Hnd as [|? ? Hnotin Hrest]; subst.
  destruct (Name q =? Name p)%string eqn:E.
  - destruct Hin as [<- | Hin]; [reflexivity|].
    apply String.eqb_eq in E. exfalso. apply Hnotin. rewrite E.
    apply list_elem_of_In, in_map_iff. eauto.
  - destruct Hin as [<- | Hin].
    + now rewrite String.eqb_refl in E.
    + now apply IH.
Qed.

Lemma find_none_name n qs p :
  List.find (fun q => String.eqb (Name q) n) qs = None ->
  In p qs -> Name p <> n.
Proof.
  intros Hfind Hin Hname.
  apply (find_none _ _ Hfind) in Hin. simpl in Hin.
  apply String.eqb_neq in Hin. contradiction.
Qed.

(** One stop: the table still loads and can be written, records only went
    to "stopped", and no record of the name is running. *)
Lemma StopProcess_settles_name n v qs :
  LoadProcesses v = Ok qs ->
  write_fault (faults v) = false ->
  unique_names qs ->
  exists qs',
    LoadProcesses (StopProcess pm n v).1 = Ok qs' /\
    write_fault (faults (StopProcess pm n v).1) = false /\
    only_stopped qs qs' /\
    (forall p, In p qs' -> Name p = n -> is_running p = false).
Proof.
  intros Hload Hw Huniq.
  destruct (List.find (fun q => String.eqb (Name q) n) qs) as [info|] eqn:Hfind.
  - destruct (is_running info) eqn:Hrun.
    + destruct (StopProcess_effect pm n v qs info Hload Hfind Hrun)
        as (_ & _ & Hfaults & _).
      exists (stop_first (fun q => String.eqb (Name q) n) qs).
      split; [|split; [|split]].
      * apply (StopProcess_load pm n v qs info Hload Hfind Hrun Hw).
      * now rewrite Hfaults.
      * apply only_stopped_stop_first.
      * intros p. now apply stop_first_unique_stopped.
    + assert (Hsame : (StopProcess pm n v).1 = v).
      { unfold StopProcess, GetProcess. now rewrite Hload, Hfind, Hrun. }
      rewrite Hsame. exists qs. repeat split; try assumption.
      * apply only_stopped_refl.
      * intros p Hin Hname.
        now rewrite (unique_found n qs info p Huniq Hfind Hin Hname).
  - assert (Hsame : (StopProcess pm n v).1 = v).
    { unfold StopProcess, GetProcess. now rewrite Hload, Hfind. }
    rewrite Hsame. exists qs. repeat split; try assumption.
    + apply only_stopped_refl.
    + intros p Hin Hname. exfalso.
      now apply (find_none_name n qs p Hfind Hin).
Qed.

Lemma not_running_stays ps ps' p' :
  only_stopped ps ps' -> In p' ps' ->
  (forall p, In p ps -> Name p = Name p' -> is_running p = false) ->
  is_running p' = false.
Proof.
  intros Hrel Hin Hnot.
  destruct (only_stopped_In ps ps' p' Hrel Hin) as (p & Hp & [-> | ->]).
  - now apply Hnot.
  - reflexivity.
Qed.

Lemma stop_each_settles processes : forall v qs,
  LoadProcesses v = Ok qs ->
  write_fault (faults v) = false ->
  unique_names qs ->
  exists qs',
    LoadProcesses (Cmd.stop_each pm processes v).1 = Ok qs' /\
    only_stopped qs qs' /\
    (forall p, In p qs' -> In (Name p) (map Name processes) ->
       is_running p = false).
Proof.
  induction processes as [|l rest IH]; intros v qs Hload Hw Huniq; simpl.
  - exists qs. repeat split; [assumption|apply only_stopped_refl|].
    intros p _ [].
  - destruct (StopProcess_settles_name (Name l) v qs Hload Hw Huniq)
      as (qs1 & Hload1 & Hw1 & Hrel1 & Hstopped1).
    destruct (StopProcess pm (Name l) v) as [v1 err]. simpl in *.
    assert (Huniq1 : unique_names qs1).
    { unfold unique_names. now rewrite (only_stopped_names qs qs1 Hrel1). }
    destruct (IH v1 qs1 Hload1 Hw1 Huniq1) as (qs' & Hload' & Hrel' & Hrest).
    destruct (Cmd.stop_each pm rest v1) as [v2 reports]. simpl in *.
    exists qs'. split; [assumption|]. split.
    + now apply (only_stopped_trans qs qs1 qs').
    + intros p Hin [Hname | Hname]; [|now apply Hrest].
      apply (not_running_stays qs1 qs' p Hrel' Hin).
      intros p1 Hin1 Hname1. apply Hstopped1; [assumption|congruence].
Qed.

Lemma UpdateProcessStatus_loaded w ps :
  LoadProcesses w = Ok ps ->
  write_fault (faults w) = false ->
  LoadProcesses (UpdateProcessStatus pm w).1 = Ok (map (settle w) ps) /\
  faults (UpdateProcessStatus pm w).1 = faults w.
Proof.
  intros Hload Hw. rewrite (UpdateProcessStatus_settles pm w ps Hload). simpl.
  destruct (existsb (stale w) ps) eqn:Hch.
  - split.
    + apply SaveProcesses_load_fixed; [| |assumption].
      * apply json_fixed_settle, (LoadProcesses_fixed w ps Hload).
      * apply (LoadProcesses_readable w ps Hload).
    + apply SaveProcesses_rest.
  - now rewrite (no_stale_settle w ps Hch).
Qed.

End StopAll.

(** X12: where the table loads with unique names and can be written,
    [stop --all] ends with no record marked "running": the records of the
    table are all still there, in place, each as before or set to
    "stopped". *)
Theorem runStop_all_leaves_none_running pm arg w ps :
  LoadProcesses w = Ok ps ->
  write_fault (faults w) = false ->
  System.unique_names ps ->
  exists reports qs,
    (Cmd.runStop pm true arg w).2 = Cmd.Return reports /\
    LoadProcesses (Cmd.runStop pm true arg w).1 = Ok qs /\
    System.only_stopped ps qs /\
    Forall (fun p => Status p <> "running") qs.
Proof.
  intros Hload Hw Huniq. unfold Cmd.runStop.
  rewrite (GetRunningProcesses_settles pm w ps Hload).
  destruct (UpdateProcessStatus_loaded pm w ps Hload Hw) as (Hload1 & Hf1).
  set (w1 := (UpdateProcessStatus pm w).1) in *.
  set (ps1 := map (System.settle w) ps) in *.
  set (live := List.filter
                 (fun p => is_running p && IsProcessRunning (PID p) w) ps1).
  assert (Hrel1 : System.only_stopped ps ps1) by apply only_stopped_settle.
  assert (Huniq1 : System.unique_names ps1).
  { unfold System.unique_names. now rewrite (only_stopped_names ps ps1 Hrel1). }
  assert (Hw1 : write_fault (faults w1) = false) by now rewrite Hf1.
  destruct (stop_each_settles pm live w1 ps1 Hload1 Hw1 Huniq1)
    as (qs & Hloadq & Hrelq & Hstopped).
  destruct (Cmd.stop_each pm live w1) as [w2 reports]. simpl in *.
  exists reports, qs. split; [reflexivity|]. split; [assumption|]. split.
  - now apply (only_stopped_trans ps ps1 qs).
  - apply Forall_forall. intros p Hin Hst.
    apply list_elem_of_In in Hin.
    assert (Hrun : is_running p = true) by now apply is_running_true.
    destruct (only_stopped_In ps1 qs p Hrelq Hin) as (p1 & Hin1 & Hp).
    destruct Hp as [-> | ->]; [|discriminate].
    assert (Hlive : In p1 live).
    { apply filter_In. split; [assumption|]. rewrite Hrun. simpl.
      subst ps1. apply in_map_iff in Hin1 as (p0 & <- & _).
      pose proof (settle_not_stale w p0) as Hns.
      unfold System.stale in Hns. rewrite Hrun in Hns. simpl in Hns.
      now apply negb_false_iff in Hns. }
    rewrite (Hstopped p1 Hin) in Hrun; [discriminate|].
    apply in_map_iff. eauto.
Qed.

Lemma runStop_all_leaves_none_running_witness :
  exists reports qs,
    (Cmd.runStop Scenario.pm true None Scenario.web_started).2
      = Cmd.Return reports /\
    LoadProcesses (Cmd.runStop Scenario.pm true None Scenario.web_started).1
      = Ok qs /\
    System.only_stopped [Scenario.record "web" 100 "running"] qs /\
    Forall (fun p => Status p <> "running") qs.
Proof.
  apply (runStop_all_leaves_none_running Scenario.pm None Scenario.web_started
           [Scenario.record "web" 100 "running"]).
  - reflexivity.
  - reflexivity.
  - repeat constructor. intros H. inversion H.
Defined.

(** ** From start to exit *)

Lemma stop_first_last f xs y :
  (forall x, In x xs -> f x = false) -> f y = true ->
  stop_first f (xs ++ [y]) = xs ++ [set_Status "stopped" y].
Proof.
  intros Hxs Hy. induction xs as [|x xs IH]; simpl.
  - now rewrite Hy.
  - rewrite (Hxs x (or_introl eq_refl)). f_equal.
    apply IH. intros x' Hx'. apply Hxs. now right.
Qed.

(** X13: a daemon started without faults under a name that is valid UTF-8,
    whose pid no record of another name carries, is marked "stopped" by its
    watcher once the child has terminated: whatever else the environment did
    meanwhile, as long as the process file was left alone, the record found
    under the name is then the one StartDaemon returned, its strings as the
    JSON coding leaves them, with its status set to "stopped". *)
Theorem watcher_marks_started_daemon pm name command env workdir pid proc w ps
    later :
  mkdir_fault (faults w) = false ->
  open_fault (faults w) = false ->
  write_fault (faults w) = false ->
  Json.utf8 name ->
  LoadProcesses w = Ok ps ->
  (forall p, In p ps -> Name p <> name -> PID p <> pid) ->
  let info :=
    {| PID := pid; Name := name; Command := command; StartTime := now w;
       Status := "running"; LogFile := GetLogFile pm name;
       Project := ProjectName pm |} in
  let started :=
    (StartDaemon pm name command env workdir (Some (pid, proc)) w).1 in
  proc_file later = proc_file started ->
  faults later = faults started ->
  GetProcess name
    (watcher_exit pm {| w_info := info; w_fd := next_handle w |} later)
  = Ok (set_Status "stopped" (json_record info)).
Proof.
  intros Hmk Hop Hw Hname Hload Hpid info started Hfile Hfaults.
  pose proof (LoadProcesses_readable w ps Hload) as Hr.
  pose proof (LoadProcesses_fixed w ps Hload) as Hfix.
  destruct (StartDaemon_tracked pm name command env workdir pid proc w
              Hmk Hop Hw) as (_ & Hfile1 & Hfaults1 & _).
  fold info started in Hfile1, Hfaults1. rewrite Hload in Hfile1.
  assert (Hrec : Name (json_record info) = name)
    by apply (utf8_record_Name info Hname).
  set (wt := {| w_info := info; w_fd := next_handle w |}).
  set (closed := close_handle (w_fd wt) later).
  assert (Hloadc : LoadProcesses closed
                   = Ok (without_name name ps ++ [json_record info])).
  { apply load_upsert; [| |exact Hfix].
    - change (proc_file closed) with (proc_file later).
      now rewrite Hfile, Hfile1.
    - change (faults closed) with (faults later).
      now rewrite Hfaults, Hfaults1. }
  assert (Hwc : write_fault (faults closed) = false).
  { change (faults closed) with (faults later).
    now rewrite Hfaults, Hfaults1. }
  assert (Hrc : read_fault (faults closed) = false)
    by apply (LoadProcesses_readable closed _ Hloadc).
  assert (Hstop : stop_first (fun p => (PID p =? PID (w_info wt))%Z)
                    (without_name name ps ++ [json_record info])
                  = without_name name ps
                    ++ [set_Status "stopped" (json_record info)]).
  { apply stop_first_last.
    - intros x Hx. apply Z.eqb_neq. simpl.
      unfold without_name in Hx. apply filter_In in Hx as [Hin Hne].
      apply negb_true_iff, String.eqb_neq in Hne. now apply Hpid.
    - simpl. apply Z.eqb_refl. }
  unfold watcher_exit. fold closed. rewrite Hloadc, Hstop.
  unfold GetProcess.
  rewrite SaveProcesses_load_fixed; [| |exact Hrc|exact Hwc].
  - now rewrite (find_upsert name ps (set_Status "stopped" (json_record info))).
  - rewrite <- Hstop. apply json_fixed_stop_first.
    apply (LoadProcesses_fixed closed _ Hloadc).
Qed.

Lemma watcher_marks_started_daemon_witness :
  GetProcess "web"
    (watcher_exit Scenario.pm Scenario.web_watcher Scenario.web_exited)
  = Ok (set_Status "stopped"
          (json_record (Scenario.record "web" 100 "running"))).
Proof.
  apply (watcher_marks_started_daemon Scenario.pm "web" "sleep 5" []
           "/srv/app" 100 Scenario.obedient Scenario.fresh []
           Scenario.web_exited);
    try (vm_compute; reflexivity).
  intros p [].
Defined.

(** ** Restart *)

Lemma StopProcess_faults pm name w :
  faults (StopProcess pm name w).1 = faults w.
Proof.
  destruct (GetProcess name w) as [info|e] eqn:Hget.
  - destruct (is_running info) eqn:Hrun.
    + destruct (GetProcess_loaded name w info Hget) as (ps & Hload & Hfind).
      now destruct (StopProcess_effect pm name w ps info Hload Hfind Hrun)
        as (_ & _ & Hfaults & _).
    + unfold StopProcess. now rewrite Hget, Hrun.
  - unfold StopProcess. now rewrite Hget.
Qed.

(** X14: restart of a known name, with no fault in the way, a configuration
    that loads and a command that starts, ends with one record under the
    name: the record StartDaemon returns, its strings as the JSON coding
    leaves them, which is that very record when the log path and the project
    name are valid UTF-8.  It carries the name, the command of the record
    found at the outset, the pid of the new child and status "running", and
    the new child answers the probe. *)
Theorem runRestart_restarts pm arg env workdir pid proc w existing :
  mkdir_fault (faults w) = false ->
  open_fault (faults w) = false ->
  write_fault (faults w) = false ->
  GetProcess (default (ProjectName pm) arg) w = Ok existing ->
  let name := default (ProjectName pm) arg in
  let r := Cmd.runRestart pm arg (Some (env, workdir)) (Some (pid, proc)) w in
  exists info,
    r.2 = inr info /\
    Name info = name /\ Command info = Command existing /\
    PID info = pid /\ Status info = "running" /\
    GetProcess name r.1 = Ok (json_record info) /\
    Name (json_record info) = name /\
    Command (json_record info) = Command existing /\
    PID (json_record info) = pid /\ Status (json_record info) = "running" /\
    (Json.utf8 (GetLogFile pm name) -> Json.utf8 (ProjectName pm) ->
     GetProcess name r.1 = Ok info) /\
    System.count_name name (System.stored r.1) = 1 /\
    IsProcessRunning pid r.1 = true.
Proof.
  intros Hmk Hop Hw Hget name r.
  destruct (GetProcess_loaded _ w existing Hget) as (ps & Hload & Hfind).
  pose proof (LoadProcesses_readable w ps Hload) as Hr.
  assert (Hex : json_record existing = existing /\ Name existing = name).
  { pose proof (LoadProcesses_fixed w ps Hload) as Hfix.
    apply json_fixed_Forall in Hfix. rewrite List.Forall_forall in Hfix.
    apply find_some in Hfind as [Hin Hn]. split; [now apply Hfix|].
    now apply String.eqb_eq in Hn. }
  destruct Hex as [Hexfix Hexname].
  assert (Hname : Json.utf8 name).
  { unfold Json.utf8. rewrite <- Hexname, <- json_record_Name.
    now rewrite Hexfix. }
  assert (Hcmd : Json.json_string (Command existing) = Command existing).
  { now rewrite <- Hexfix at 2. }
  subst r. unfold Cmd.runRestart. fold name in Hget |- *. rewrite Hget.
  set (w1 := if is_running existing && IsProcessRunning (PID existing) w
             then time_Sleep 500 (StopProcess pm name w).1 else w).
  assert (Hf1 : faults w1 = faults w).
  { subst w1. destruct (is_running existing && _); [|reflexivity].
    apply StopProcess_faults. }
  destruct (StartDaemon_tracked pm name (Command existing) env workdir pid
              proc w1) as (Hres & Hfile & Hfaults & Hprocs & _);
    try (rewrite Hf1; assumption).
  set (info := Build_ProcessInfo pid name (Command existing) (now w1)
                 "running" (GetLogFile pm name) (ProjectName pm)) in *.
  assert (Hrec : Name (json_record info) = name)
    by apply (utf8_record_Name info Hname).
  assert (Hload2 :
    LoadProcesses
      (StartDaemon pm name (Command existing) env workdir (Some (pid, proc))
         w1).1
    = Ok (without_name name
            match LoadProcesses w1 with Ok qs => qs | Err _ => [] end
          ++ [json_record info])).
  { apply load_upsert; [exact Hfile| |apply loaded_fixed].
    now rewrite Hfaults, Hf1. }
  destruct (StartDaemon pm name (Command existing) env workdir
              (Some (pid, proc)) w1) as [w2 res].
  simpl in Hres, Hfile, Hfaults, Hprocs, Hload2. subst res. simpl.
  exists info.
  assert (Hget2 : GetProcess name w2 = Ok (json_record info)).
  { unfold GetProcess. rewrite Hload2. now rewrite (find_upsert _ _ _ Hrec). }
  split; [reflexivity|]. split; [reflexivity|]. split; [reflexivity|].
  split; [reflexivity|]. split; [reflexivity|].
  split; [exact Hget2|]. split; [exact Hrec|]. split; [exact Hcmd|].
  split; [reflexivity|]. split; [reflexivity|].
  split; [|split].
  - intros Hlog Hproj. rewrite Hget2. f_equal.
    apply json_record_utf8; try assumption. reflexivity.
  - rewrite <- (LoadProcesses_stored w2 _ Hload2).
    pose proof (upsert_count (json_record info)
                  match LoadProcesses w1 with Ok qs => qs | Err _ => [] end)
      as Hc.
    now rewrite Hrec in Hc.
  - unfold IsProcessRunning. now rewrite Hprocs, lookup_insert_eq.
Qed.

Lemma runRestart_restarts_witness :
  exists info,
    (Cmd.runRestart Scenario.pm (Some "web") (Some ([], "/srv/app"))
       (Some (101%Z, Scenario.obedient)) Scenario.web_started).2 = inr info /\
    Command info = "sleep 5" /\ PID info = 101%Z.
Proof.
  assert (Hget : GetProcess "web" Scenario.web_started
                 = Ok (Scenario.record "web" 100 "running"))
    by (vm_compute; reflexivity).
  destruct (runRestart_restarts Scenario.pm (Some "web") [] "/srv/app" 101
              Scenario.obedient Scenario.web_started
              (Scenario.record "web" 100 "running")
              eq_refl eq_refl eq_refl Hget)
    as (info & H1 & _ & H3 & H4 & _).
  exists info. split; [exact H1|]. split; [exact H3|exact H4].
Defined.

(** X15: restart is not atomic.  When the record is running with a live
    process and the configuration then fails to load, restart ends with the
    configuration error after the stop has taken place: where the table can
    be written, the record is left "stopped" and nothing is started. *)
Theorem runRestart_stops_before_config pm arg child w existing :
  GetProcess (default (ProjectName pm) arg) w = Ok existing ->
  Status existing = "running" ->
  IsProcessRunning (PID existing) w = true ->
  write_fault (faults w) = false ->
  let name := default (ProjectName pm) arg in
  let r := Cmd.runRestart pm arg None child w in
  r.2 = inl Cmd.RestartConfig /\
  GetProcess name r.1 = Ok (set_Status "stopped" existing) /\
  watchers r.1 = watchers w.
Proof.
  intros Hget Hst Halive Hw name r.
  destruct (GetProcess_loaded _ w existing Hget) as (ps & Hload & Hfind).
  pose proof (LoadProcesses_readable w ps Hload) as Hr.
  pose proof (StopProcess_load pm name w ps existing Hload Hfind
                (is_running_true existing Hst) Hw) as Hload'.
  subst r. unfold Cmd.runRestart. fold name in Hget |- *.
  rewrite Hget, (is_running_true existing Hst), Halive. simpl.
  split; [reflexivity|]. split.
  - unfold GetProcess.
    rewrite (LoadProcesses_same (StopProcess pm name w).1) by reflexivity.
    rewrite Hload'.
    now rewrite (find_stop_first name ps existing Hfind).
  - unfold StopProcess. rewrite Hget, (is_running_true existing Hst). simpl.
    pose proof (stop_signals_procs (PID existing) w) as Hpr.
    destruct (os_Signal (PID existing) SIGTERM w) as [w1 failed].
    destruct Hpr as (_ & Hwatch & _). simpl.
    rewrite (proj1 (proj2 (proj2 (SaveProcesses_rest pm _ _)))). exact Hwatch.
Qed.

Lemma runRestart_stops_before_config_witness :
  GetProcess "web"
    (Cmd.runRestart Scenario.pm (Some "web") None None Scenario.web_started).1
  = Ok (Scenario.record "web" 100 "stopped").
Proof.
  apply (runRestart_stops_before_config Scenario.pm (Some "web") None
           Scenario.web_started (Scenario.record "web" 100 "running"));
    vm_compute; reflexivity.
Defined.

Lemma StopProcess_stored pm name w :
  System.stored (StopProcess pm name w).1 = System.stored w \/
  exists ps,
    LoadProcesses w = Ok ps /\
    System.stored (StopProcess pm name w).1
    = stop_first (fun q => String.eqb (Name q) name) ps.
Proof.
  destruct (GetProcess name w) as [info|e] eqn:Hget.
  - destruct (is_running info) eqn:Hrun.
    + destruct (GetProcess_loaded name w info Hget) as (ps & Hload & Hfind).
      destruct (StopProcess_effect pm name w ps info Hload Hfind Hrun)
        as (_ & Hfile & _).
      destruct (write_fault (faults w)).
      * left. now apply stored_same.
      * right. exists ps. split; [assumption|].
        unfold System.stored. rewrite Hfile.
        apply json_fixed_stop_first, (LoadProcesses_fixed w ps Hload).
    + left. unfold StopProcess. now rewrite Hget, Hrun.
  - left. unfold StopProcess. now rewrite Hget.
Qed.

(** ** The status values in the table *)

Section KnownStatus.

Import System.

Variable pm : ProcessManager.

Lemma known_same w w' :
  proc_file w' = proc_file w ->
  Forall known_status (stored w) -> Forall known_status (stored w').
Proof. intros H. now rewrite (stored_same w w' H). Qed.

Lemma known_json p : known_status p -> known_status (json_record p).
Proof.
  unfold known_status. simpl. intros [-> | ->]; [left|right]; reflexivity.
Qed.

Lemma known_save ps w :
  Forall known_status (stored w) -> Forall known_status ps ->
  Forall known_status (stored (SaveProcesses pm ps w).1).
Proof.
  intros Hw Hps. rewrite SaveProcesses_stored.
  destruct (write_fault (faults w)); [assumption|].
  induction Hps as [|p ps Hp _ IH]; simpl; constructor;
    [now apply known_json|assumption].
Qed.

Lemma known_loaded w :
  Forall known_status (stored w) ->
  Forall known_status match LoadProcesses w with Ok ps => ps | Err _ => [] end.
Proof.
  intros Hw. destruct (LoadProcesses w) as [ps|e] eqn:E; [|constructor].
  now rewrite (LoadProcesses_stored w ps E).
Qed.

Lemma known_without n ps :
  Forall known_status ps -> Forall known_status (without_name n ps).
Proof.
  unfold without_name. induction 1 as [|p ps Hp _ IH]; simpl; [constructor|].
  destruct (negb (Name p =? n)%string); [constructor|]; assumption.
Qed.

Lemma known_stopped p : known_status (set_Status "stopped" p).
Proof. now right. Qed.

Lemma known_stop_first f ps :
  Forall known_status ps -> Forall known_status (stop_first f ps).
Proof.
  induction 1 as [|p ps Hp Hps IH]; simpl; [constructor|].
  destruct (f p); constructor; auto using known_stopped.
Qed.

Lemma known_settle w ps :
  Forall known_status ps -> Forall known_status (map (settle w) ps).
Proof.
  induction 1 as [|p ps Hp _ IH]; simpl; constructor; [|assumption].
  unfold settle. destruct (stale w p); auto using known_stopped.
Qed.

Lemma known_UpdateProcessStatus w :
  Forall known_status (stored w) ->
  Forall known_status (stored (UpdateProcessStatus pm w).1).
Proof.
  intros Hw. destruct (LoadProcesses w) as [ps|e] eqn:Hload.
  - rewrite (UpdateProcessStatus_settles pm w ps Hload). simpl.
    destruct (existsb (stale w) ps); [|assumption].
    apply known_save; [assumption|]. apply known_settle.
    now rewrite (LoadProcesses_stored w ps Hload).
  - unfold UpdateProcessStatus. now rewrite Hload.
Qed.

Lemma known_StopProcess name w :
  Forall known_status (stored w) ->
  Forall known_status (stored (StopProcess pm name w).1).
Proof.
  intros Hw.
  destruct (StopProcess_stored pm name w) as [Hsame | (ps & Hload & Hst)].
  - now rewrite Hsame.
  - rewrite Hst. apply known_stop_first.
    now rewrite (LoadProcesses_stored w ps Hload).
Qed.

Lemma known_RemoveProcess name w :
  Forall known_status (stored w) ->
  Forall known_status (stored (RemoveProcess pm name w).1).
Proof.
  intros Hw. unfold RemoveProcess.
  pose proof (known_loaded w Hw) as Hl.
  destruct (LoadProcesses w) as [ps|e]; [|assumption].
  apply known_save; [assumption|]. now apply known_without.
Qed.

Lemma known_watcher_exit wt w :
  Forall known_status (stored w) ->
  Forall known_status (stored (watcher_exit pm wt w)).
Proof.
  intros Hw. unfold watcher_exit.
  assert (Hc : Forall known_status (stored (close_handle (w_fd wt) w)))
    by now apply (known_same w).
  apply known_save; [assumption|].
  now apply known_stop_first, known_loaded.
Qed.

Lemma known_StartDaemon name command env workdir child w :
  Forall known_status (stored w) ->
  Forall known_status
    (stored (StartDaemon pm name command env workdir child w).1).
Proof.
  intros Hw.
  destruct (mkdir_fault (faults w)) eqn:Hmk;
    [unfold StartDaemon; now rewrite Hmk|].
  destruct (open_fault (faults w)) eqn:Hop;
    [unfold StartDaemon; now rewrite Hmk, Hop|].
  destruct (StartDaemon_log_ready pm name command env workdir child w Hmk Hop)
    as (w2 & (Hfile & _) & _ & _ & _ & Heq).
  rewrite Heq. destruct child as [[pid proc]|].
  - cbv zeta.
    set (info := Build_ProcessInfo _ _ _ _ _ _ _).
    set (w3 := emit _ _).
    assert (H3 : Forall known_status (stored w3)) by now apply (known_same w).
    assert (H4 : Forall known_status (stored (AddProcess pm info w3).1)).
    { unfold AddProcess. apply known_save; [assumption|].
      apply Forall_app. split.
      - now apply known_without, known_loaded.
      - constructor; [now left|constructor]. }
    destruct (AddProcess pm info w3) as [w4 [e|]]; simpl in *; [assumption|].
    now apply (known_same w4).
  - simpl. now apply (known_same w).
Qed.

Lemma known_step w w' :
  managed_step pm w w' ->
  Forall known_status (stored w) -> Forall known_status (stored w').
Proof.
  intros Hstep Hw. destruct Hstep.
  - now apply known_RemoveProcess.
  - now apply known_UpdateProcessStatus.
  - rewrite GetRunningProcesses_world. now apply known_UpdateProcessStatus.
  - now apply known_StopProcess.
  - now apply known_StartDaemon.
  - apply (known_same (watcher_exit pm wt w)); [reflexivity|].
    now apply known_watcher_exit.
  - now apply (known_same w).
Qed.

End KnownStatus.

(** X16: through the launcher, reconciliation, stop, remove and the
    watchers, every record of the table has status "running" or "stopped":
    the process manager never writes "crashed" or any other status. *)
Theorem managed_statuses pm w :
  System.managed pm w ->
  Forall System.known_status (System.stored w).
Proof.
  intros (w0 & (Hfile & _) & Hsteps).
  assert (H0 : Forall System.known_status (System.stored w0)).
  { unfold System.stored. rewrite Hfile. constructor. }
  clear Hfile.
  induction Hsteps as [|a b c Hab _ IH]; [assumption|].
  apply IH. now apply (known_step pm a).
Qed.

Lemma managed_statuses_witness :
  Forall System.known_status (System.stored Scenario.web_watched).
Proof.
  apply (managed_statuses Scenario.pm).
  exists Scenario.fresh. split; [repeat split; reflexivity|].
  apply (rtc_l _ _ Scenario.web_started).
  { apply System.managed_StartDaemon. }
  apply (rtc_l _ _ Scenario.web_exited).
  { apply System.managed_environment. vm_compute. reflexivity. }
  apply rtc_once.
  apply (System.managed_watcher Scenario.pm 0 Scenario.web_watcher).
  vm_compute. reflexivity.
Defined.

(** ** More on the log reader *)

Lemma ReadLogs_plain_lines_witness :
  ReadLogs Scenario.pm "web" 2 false Scenario.three_lines
  = Printed ["serving"; "done"] None.
Proof.
  apply (ReadLogs_plain_lines Scenario.pm "web" 2 Scenario.three_lines
           ["ready"; "serving"; "done"]).
  - reflexivity.
  - repeat constructor.
  - vm_compute. split; discriminate.
  - vm_compute. discriminate.
Defined.

(** X18: on a log of plain lines, tail with a count of 0 or below prints
    nothing and succeeds, as long as the count is not so far below 0 that
    the number of lines less the count leaves the range of int. *)
Theorem ReadLogs_nonpositive pm name n w ls :
  log_files w !! GetLogFile pm name = Some (Bufio.unlines ls) ->
  Forall (fun l => Bufio.plain_line l = true) ls ->
  (Z.of_nat (length ls) - GoInt.max_int <= n <= 0)%Z ->
  ReadLogs pm name n false w = Printed [] None.
Proof.
  intros Hfile Hplain Hn. unfold ReadLogs. rewrite Hfile.
  assert (Hrange : GoInt.in_range (Z.of_nat (length ls) - n)).
  { unfold GoInt.in_range, GoInt.min_int, GoInt.max_int in *. lia. }
  destruct (tailLines_in_range (GetLogFile pm name) n w (Bufio.unlines ls) ls
              Hfile (scan_lines_unlines ls Hplain) Hrange) as [_ Hnone].
  now rewrite (Hnone (proj2 Hn)).
Qed.

Lemma ReadLogs_nonpositive_witness :
  ReadLogs Scenario.pm "web" (-3) false Scenario.three_lines
  = Printed [] None.
Proof.
  apply (ReadLogs_nonpositive Scenario.pm "web" (-3) Scenario.three_lines
           ["ready"; "serving"; "done"]).
  - reflexivity.
  - repeat constructor.
  - vm_compute. split; discriminate.
Defined.

Section OpenEnded.

Import Bufio.

Lemma scan_loop_eof l : forall tok held acc,
  no_newline l = true ->
  (0 <= held)%Z ->
  (0 < held + Z.of_nat (String.length l))%Z ->
  (held + Z.of_nat (String.length l) < MaxScanTokenSize)%Z ->
  scan_loop l tok held acc = (rev' (dropCR (rev_onto l tok) :: acc), None).
Proof.
  induction l as [|c l IH]; intros tok held acc Hnl Hheld Hpos Hlen;
    rewrite scan_loop_eq; simpl in *.
  - destruct (Z.leb_spec MaxScanTokenSize held) as [Hle|_]; [lia|].
    destruct (Z.eqb_spec held 0) as [Hz|_]; [lia|]. reflexivity.
  - destruct (Z.leb_spec MaxScanTokenSize held) as [Hle|_]; [lia|].
    apply andb_true_iff in Hnl as [Hc Hnl].
    apply negb_true_iff in Hc. rewrite Hc.
    apply IH; [assumption|lia|lia|lia].
Qed.

Lemma unlines_app ls rest : forall acc,
  Forall (fun l => plain_line l = true) ls ->
  scan_loop (unlines ls ++ rest) [] 0%Z acc
  = scan_loop rest [] 0%Z (rev ls ++ acc).
Proof.
  induction ls as [|l ls IH]; intros acc Hplain.
  - reflexivity.
  - inversion Hplain as [|? ? Hl Hls]; subst. simpl unlines.
    unfold plain_line in Hl.
    apply andb_true_iff in Hl as [Hl Hlen].
    apply andb_true_iff in Hl as [Hnl Hcr].
    apply negb_true_iff in Hcr. apply Z.ltb_lt in Hlen.
    rewrite string_app_assoc, append_cons.
    rewrite scan_loop_line; [|assumption|lia|lia].
    rewrite (dropCR_plain l Hcr), (IH _ Hls). simpl.
    now rewrite <- app_assoc.
Qed.

Lemma scan_lines_open_ended ls l :
  Forall (fun l => plain_line l = true) ls ->
  plain_line l = true -> l <> "" ->
  scan_lines (unlines ls ++ l) = (ls ++ [l], None).
Proof.
  intros Hplain Hl Hne. unfold scan_lines.
  rewrite (unlines_app ls l [] Hplain).
  unfold plain_line in Hl.
  apply andb_true_iff in Hl as [Hl Hlen].
  apply andb_true_iff in Hl as [Hnl Hcr].
  apply negb_true_iff in Hcr. apply Z.ltb_lt in Hlen.
  rewrite scan_loop_eof; [|assumption|lia| |lia].
  - rewrite (dropCR_plain l Hcr). unfold rev'.
    rewrite rev_append_rev, !app_nil_r. simpl.
    now rewrite rev_involutive.
  - destruct l; [contradiction|]. simpl. lia.
Qed.

End OpenEnded.

(** X19: a last line that lacks its newline counts as a line.  On a log of
    plain lines followed by a non-empty plain rest, tail prints the last
    [n] of the lines with that rest as the final one. *)
Theorem ReadLogs_open_ended pm name n w ls l :
  log_files w !! GetLogFile pm name = Some (Bufio.unlines ls ++ l)%string ->
  Forall (fun l => Bufio.plain_line l = true) ls ->
  Bufio.plain_line l = true -> l <> "" ->
  (0 <= n <= GoInt.max_int)%Z ->
  (Z.of_nat (length ls) < GoInt.max_int)%Z ->
  ReadLogs pm name n false w
  = Printed (drop (length (ls ++ [l]) - Z.to_nat n) (ls ++ [l])) None.
Proof.
  intros Hfile Hplain Hl Hne Hn Hlen. unfold ReadLogs. rewrite Hfile.
  assert (Hrange : GoInt.in_range (Z.of_nat (length (ls ++ [l])) - n)).
  { rewrite length_app. simpl.
    unfold GoInt.in_range, GoInt.min_int, GoInt.max_int in *. lia. }
  destruct (tailLines_in_range (GetLogFile pm name) n w _ (ls ++ [l])
              Hfile (scan_lines_open_ended ls l Hplain Hl Hne) Hrange)
    as [-> _].
  reflexivity.
Qed.

Lemma ReadLogs_open_ended_witness :
  ReadLogs Scenario.pm "web" 2 false Scenario.open_ended
  = Printed ["serving"; "done"] None.
Proof.
  apply (ReadLogs_open_ended Scenario.pm "web" 2 Scenario.open_ended
           ["ready"; "serving"] "done").
  - reflexivity.
  - repeat constructor.
  - reflexivity.
  - discriminate.
  - vm_compute. split; discriminate.
  - vm_compute. reflexivity.
Defined.

(** * The configuration entries *)

Section Splitting.

Import GoStrings.

Variable sep : ascii.

Lemma cut_app a b :
  contains sep a = false -> cut sep (a ++ String sep b) = Some (a, b).
Proof.
  induction a as [|c a IH]; intros Ha.
  - rewrite append_empty_l. simpl. now rewrite Ascii.eqb_refl.
  - rewrite append_cons. simpl in *.
    apply orb_false_iff in Ha as [Hc Ha]. now rewrite Hc, (IH Ha).
Qed.

Lemma cut_none s : contains sep s = false -> cut sep s = None.
Proof.
  induction s as [|c s IH]; simpl; [reflexivity|]. intros H.
  apply orb_false_iff in H as [Hc Hs]. now rewrite Hc, (IH Hs).
Qed.

Lemma cut_some s : forall a b,
  cut sep s = Some (a, b) ->
  s = (a ++ String sep b)%string /\ contains sep a = false.
Proof.
  induction s as [|c s IH]; simpl; intros a b; [discriminate|].
  destruct (Ascii.eqb c sep) eqn:Hc.
  - intros [= <- <-]. apply Ascii.eqb_eq in Hc. subst c. now split.
  - destruct (cut sep s) as [[a' b']|]; [|discriminate].
    intros [= <- <-]. destruct (IH a' b' eq_refl) as [-> Ha].
    split; [now rewrite append_cons|]. simpl. now rewrite Hc.
Qed.

Lemma cut_contains s : contains sep s = true -> exists a b, cut sep s = Some (a, b).
Proof.
  induction s as [|c s IH]; simpl; [discriminate|].
  destruct (Ascii.eqb c sep); simpl; [eauto|].
  intros H. destruct (IH H) as (a & b & ->). eauto.
Qed.

Lemma Split_plain a : contains sep a = false -> Split sep a = [a].
Proof.
  induction a as [|c a IH]; simpl; [reflexivity|]. intros H.
  apply orb_false_iff in H as [Hc Ha]. now rewrite Hc, (IH Ha).
Qed.

Lemma Split_app a rest :
  contains sep a = false ->
  Split sep (a ++ String sep rest) = a :: Split sep rest.
Proof.
  induction a as [|c a IH]; intros Ha.
  - rewrite append_empty_l. simpl. now rewrite Ascii.eqb_refl.
  - rewrite append_cons. simpl in *.
    apply orb_false_iff in Ha as [Hc Ha]. now rewrite Hc, (IH Ha).
Qed.

Lemma Split_nonempty s : Split sep s <> [].
Proof.
  destruct s as [|c s]; simpl; [discriminate|].
  destruct (Ascii.eqb c sep); [discriminate|].
  destruct (Split sep s); discriminate.
Qed.

(** The fields of [Split] hold no separator; there are two or more of them
    exactly when the string holds one. *)
Lemma Split_fields s : Forall (fun f => contains sep f = false) (Split sep s).
Proof.
  induction s as [|c s IH]; simpl; [repeat constructor|].
  destruct (Ascii.eqb c sep) eqn:Hc; [constructor; [reflexivity|assumption]|].
  destruct (Split sep s) as [|f fs]; [repeat constructor; simpl; now rewrite Hc|].
  inversion IH; subst. constructor; [|assumption]. simpl. now rewrite Hc.
Qed.

Lemma Split_single s :
  contains sep s = true -> exists a b fs, Split sep s = a :: b :: fs.
Proof.
  induction s as [|c s IH]; simpl; [discriminate|].
  destruct (Ascii.eqb c sep) eqn:Hc; simpl.
  - intros _. destruct (Split sep s) as [|f fs] eqn:E;
      [now apply Split_nonempty in E|eauto].
  - intros H. destruct (IH H) as (a & b & fs & ->). eauto.
Qed.

End Splitting.

(** X20: copy entries round-trip.  A list of copy specifications whose
    sources hold no colon, written as "src:dst" entries, is parsed back by
    ParseCopy to the same specifications, destinations with colons
    included. *)
Theorem ParseCopy_round_trip c specs :
  Config.Copy c = map Config.copy_entry specs ->
  Forall (fun sp => GoStrings.contains Config.colon (Config.CopySrc sp) = false)
         specs ->
  Config.ParseCopy c = specs.
Proof.
  intros Hc Hsrc. unfold Config.ParseCopy. rewrite Hc, map_map. clear Hc.
  induction Hsrc as [|sp specs Hsp _ IH]; simpl; [reflexivity|].
  f_equal; [|exact IH].
  unfold Config.copy_entry, GoStrings.SplitN2.
  change (":" ++ Config.CopyDst sp)%string
    with (String Config.colon (Config.CopyDst sp)).
  rewrite (cut_app Config.colon _ _ Hsp). now destruct sp.
Qed.

Lemma ParseCopy_round_trip_witness :
  Config.ParseCopy
    {| Config.Runtime := "python:3.10"; Config.Workdir := "/app";
       Config.Copy := ["./app:/app"; "./data:/srv/data:v1"];
       Config.Mount := []; Config.Install := []; Config.Cmd := "";
       Config.Env := [] |}
  = [ {| Config.CopySrc := "./app"; Config.CopyDst := "/app" |};
      {| Config.CopySrc := "./data"; Config.CopyDst := "/srv/data:v1" |} ].
Proof.
  apply ParseCopy_round_trip; [reflexivity|].
  repeat constructor.
Defined.

(** X21: what ParseCopy makes of each entry.  It yields one specification
    per entry, in order; its source never holds a colon; an entry without a
    colon is copied onto itself, and an entry with one is its source, a
    colon and its destination. *)
Theorem ParseCopy_entries c :
  Forall2
    (fun item sp =>
       GoStrings.contains Config.colon (Config.CopySrc sp) = false /\
       (if GoStrings.contains Config.colon item
        then item = Config.copy_entry sp
        else sp = {| Config.CopySrc := item; Config.CopyDst := item |}))
    (Config.Copy c) (Config.ParseCopy c).
Proof.
  unfold Config.ParseCopy.
  induction (Config.Copy c) as [|item items IH]; simpl; constructor;
    [|exact IH].
  unfold GoStrings.SplitN2.
  destruct (GoStrings.contains Config.colon item) eqn:Hc.
  - destruct (cut_contains Config.colon item Hc) as (a & b & Hcut).
    rewrite Hcut. destruct (cut_some Config.colon item a b Hcut) as [-> Ha].
    simpl. split; [assumption|reflexivity].
  - rewrite (cut_none Config.colon item Hc). simpl. now split.
Qed.

Lemma parse_mounts_entry sp rest :
  GoStrings.contains Config.colon (Config.MountSrc sp) = false ->
  GoStrings.contains Config.colon (Config.MountDst sp) = false ->
  Config.parse_mounts (Config.mount_entry sp :: rest)
  = sp :: Config.parse_mounts rest.
Proof.
  intros Hsrc Hdst. cbn [Config.parse_mounts]. unfold Config.mount_entry.
  change (":" ++ Config.MountDst sp
          ++ (if Config.ReadOnly sp then ":ro" else ""))%string
    with (String Config.colon
            (Config.MountDst sp
             ++ (if Config.ReadOnly sp then ":ro" else ""))%string).
  rewrite (Split_app Config.colon _ _ Hsrc).
  destruct sp as [src dst [|]]; cbn [Config.ReadOnly Config.MountDst] in *.
  - change (dst ++ ":ro")%string with (dst ++ String Config.colon "ro")%string.
    rewrite (Split_app Config.colon _ _ Hdst). reflexivity.
  - rewrite append_empty, (Split_plain Config.colon _ Hdst). reflexivity.
Qed.

(** X22: mount entries round-trip.  Mount specifications whose host and
    container paths hold no colon, written as "src:dst" or "src:dst:ro",
    are parsed back by ParseMount to the same specifications. *)
Theorem ParseMount_round_trip c specs :
  Config.Mount c = map Config.mount_entry specs ->
  Forall (fun sp =>
            GoStrings.contains Config.colon (Config.MountSrc sp) = false /\
            GoStrings.contains Config.colon (Config.MountDst sp) = false)
         specs ->
  Config.ParseMount c = specs.
Proof.
  intros Hc Hspecs. unfold Config.ParseMount. rewrite Hc. clear Hc.
  induction Hspecs as [|sp specs [Hsrc Hdst] _ IH]; [reflexivity|].
  cbn [map]. now rewrite (parse_mounts_entry sp _ Hsrc Hdst), IH.
Qed.

Lemma ParseMount_round_trip_witness :
  Config.ParseMount
    {| Config.Runtime := ""; Config.Workdir := ""; Config.Copy := [];
       Config.Mount := ["/data:/mnt/data"; "/etc/ssl:/etc/ssl:ro"];
       Config.Install := []; Config.Cmd := ""; Config.Env := [] |}
  = [ {| Config.MountSrc := "/data"; Config.MountDst := "/mnt/data";
         Config.ReadOnly := false |};
      {| Config.MountSrc := "/etc/ssl"; Config.MountDst := "/etc/ssl";
         Config.ReadOnly := true |} ].
Proof.
  apply ParseMount_round_trip; [reflexivity|].
  repeat constructor.
Defined.

(** X23: ParseMount skips exactly the entries without a colon: it yields as
    many specifications as there are entries holding one, and neither the
    host path nor the container path of a specification holds a colon. *)
Theorem ParseMount_skips_malformed c :
  length (Config.ParseMount c)
  = length (List.filter (GoStrings.contains Config.colon) (Config.Mount c)) /\
  Forall (fun sp =>
            GoStrings.contains Config.colon (Config.MountSrc sp) = false /\
            GoStrings.contains Config.colon (Config.MountDst sp) = false)
         (Config.ParseMount c).
Proof.
  unfold Config.ParseMount.
  induction (Config.Mount c) as [|item items [IHlen IHall]]; simpl;
    [split; [reflexivity|constructor]|].
  pose proof (Split_fields Config.colon item) as Hfields.
  destruct (GoStrings.contains Config.colon item) eqn:Hc.
  - destruct (Split_single Config.colon item Hc) as (a & b & fs & Hsplit).
    rewrite Hsplit in *. simpl. split; [now rewrite IHlen|].
    inversion Hfields as [|? ? Ha Hrest]; subst.
    inversion Hrest as [|? ? Hb _]; subst.
    constructor; [now split|assumption].
  - rewrite (Split_plain Config.colon item Hc). now split.
Qed.

(** X24: what ParseRuntime makes of the runtime string.  Without a colon the
    whole string, lowered, is the language and the version is "3.10"; with
    one, the part before the first colon, lowered, is the language and all
    that follows it, further colons included, is the version.  The language
    "python" set up as default is always overwritten: an empty runtime gives
    the empty language. *)
Theorem ParseRuntime_parts unicode_lower c :
  (GoStrings.contains Config.colon (Config.Runtime c) = false ->
   Config.ParseRuntime unicode_lower c
   = {| Config.Language :=
          GoStrings.ToLower unicode_lower (Config.Runtime c);
        Config.Version := "3.10" |}) /\
  (forall lang ver,
     GoStrings.contains Config.colon lang = false ->
     Config.Runtime c = (lang ++ ":" ++ ver)%string ->
     Config.ParseRuntime unicode_lower c
     = {| Config.Language := GoStrings.ToLower unicode_lower lang;
          Config.Version := ver |}) /\
  (Config.Runtime c = "" ->
   Config.Language (Config.ParseRuntime unicode_lower c) = "").
Proof.
  unfold Config.ParseRuntime, GoStrings.SplitN2. split; [|split].
  - intros Hc. now rewrite (cut_none Config.colon _ Hc).
  - intros lang ver Hlang ->.
    change (":" ++ ver)%string with (String Config.colon ver).
    now rewrite (cut_app Config.colon lang ver Hlang).
  - intros ->. reflexivity.
Qed.

Lemma ParseRuntime_parts_witness :
  Config.ParseRuntime (fun s => s)
    {| Config.Runtime := "Node:18:lts"; Config.Workdir := "";
       Config.Copy := []; Config.Mount := []; Config.Install := [];
       Config.Cmd := ""; Config.Env := [] |}
  = {| Config.Language := "node"; Config.Version := "18:lts" |}.
Proof.
  apply (proj1 (proj2 (ParseRuntime_parts (fun s => s) _)) "Node" "18:lts");
    reflexivity.
Defined.

(** * The environment of the sandbox *)

(** X25: with no custom variables in the configuration, the environment
    BuildEnv hands to the sandbox depends on the host environment through
    LANG, TERM, USER, LOGNAME, DISPLAY and SSH_AUTH_SOCK only: two hosts that
    agree on these six get the same environment. *)
Theorem BuildEnv_host_isolation getenv1 getenv2 expand1 expand2 r :
  Config.Env (Runner.Config r) = [] ->
  (forall key, In key Runner.essentialVars -> getenv1 key = getenv2 key) ->
  Runner.BuildEnv getenv1 expand1 r = Runner.BuildEnv getenv2 expand2 r.
Proof.
  intros Hcustom Hsame. unfold Runner.BuildEnv. rewrite Hcustom.
  assert (Hflat : forall keys,
            (forall key, In key keys -> getenv1 key = getenv2 key) ->
            flat_map (fun key =>
                        if (getenv1 key =? "")%string then []
                        else [(key ++ "=" ++ getenv1 key)%string]) keys
            = flat_map (fun key =>
                          if (getenv2 key =? "")%string then []
                          else [(key ++ "=" ++ getenv2 key)%string]) keys).
  { induction keys as [|k keys IH]; intros Hk; simpl; [reflexivity|].
    rewrite (Hk k (or_introl eq_refl)), IH; [reflexivity|].
    intros key Hin. apply Hk. now right. }
  rewrite (Hflat _ Hsame).
  rewrite (Hsame "LANG"), (Hsame "TERM"); [reflexivity| |]; simpl; auto.
Qed.

Lemma BuildEnv_host_isolation_witness :
  Runner.BuildEnv
    (fun key => if String.eqb key "AWS_SECRET_ACCESS_KEY" then "s3cr3t" else "")
    (fun s => s)
    {| Runner.ProjectRoot := "/srv/app";
       Runner.Config :=
         {| Config.Runtime := "python:3.10"; Config.Workdir := "/app";
            Config.Copy := []; Config.Mount := [];
            Config.Install := []; Config.Cmd := "python main.py";
            Config.Env := [] |};
       Runner.EnvDir := "/srv/app/.sbox/env";
       Runner.Rootfs := "/srv/app/.sbox/rootfs";
       Runner.SboxDir := "/srv/app/.sbox" |}
  = Runner.BuildEnv (fun _ => "") (fun s => s)
    {| Runner.ProjectRoot := "/srv/app";
       Runner.Config :=
         {| Config.Runtime := "python:3.10"; Config.Workdir := "/app";
            Config.Copy := []; Config.Mount := [];
            Config.Install := []; Config.Cmd := "python main.py";
            Config.Env := [] |};
       Runner.EnvDir := "/srv/app/.sbox/env";
       Runner.Rootfs := "/srv/app/.sbox/rootfs";
       Runner.SboxDir := "/srv/app/.sbox" |}.
Proof.
  apply BuildEnv_host_isolation; [reflexivity|].
  intros key Hin. simpl in Hin.
  destruct Hin as [<-|[<-|[<-|[<-|[<-|[<-|[]]]]]]]; reflexivity.
Defined.

Lemma env_entry_app key a b :
  Exec.env_entry key (a ++ b)
  = match Exec.env_entry key b with
    | Some entry => Some entry
    | None => Exec.env_entry key a
    end.
Proof.
  induction a as [|kv a IH]; simpl.
  - now destruct (Exec.env_entry key b).
  - rewrite IH. now destruct (Exec.env_entry key b).
Qed.

(** X26: what a command started in the sandbox finds in its environment.
    The variables of the configuration come last in what BuildEnv returns,
    so an entry of the configuration wins over any other entry of its key.
    Where the configuration defines no such variable, SBOX_ACTIVE is 1, and
    LANG and TERM are the host's values, or en_US.UTF-8 and xterm-256color
    when the host has none. *)
Theorem BuildEnv_effective_entries getenv expand r :
  let custom :=
    map (fun kv => (kv.1 ++ "=" ++ expand kv.2)%string)
        (Config.Env (Runner.Config r)) in
  let env := Runner.BuildEnv getenv expand r in
  (forall key entry,
     Exec.env_entry key custom = Some entry ->
     Exec.env_entry key env = Some entry) /\
  (Exec.env_entry "SBOX_ACTIVE" custom = None ->
   Exec.env_entry "SBOX_ACTIVE" env = Some "SBOX_ACTIVE=1") /\
  (Exec.env_entry "LANG" custom = None ->
   Exec.env_entry "LANG" env
   = Some ("LANG=" ++ if (getenv "LANG" =? "")%string then "en_US.UTF-8"
                      else getenv "LANG")%string) /\
  (Exec.env_entry "TERM" custom = None ->
   Exec.env_entry "TERM" env
   = Some ("TERM=" ++ if (getenv "TERM" =? "")%string then "xterm-256color"
                      else getenv "TERM")%string).
Proof.
  intros custom env. subst env. unfold Runner.BuildEnv. fold custom.
  split; [|split; [|split]].
  - intros key entry H. rewrite !env_entry_app. now rewrite H.
  - intros H. rewrite !env_entry_app, H. reflexivity.
  - intros H. rewrite !env_entry_app, H.
    destruct (getenv "LANG" =? "")%string eqn:El;
      destruct (getenv "TERM" =? "")%string eqn:Et;
      destruct (getenv "USER" =? "")%string eqn:Eu;
      destruct (getenv "LOGNAME" =? "")%string eqn:Eg;
      destruct (getenv "DISPLAY" =? "")%string eqn:Ed;
      destruct (getenv "SSH_AUTH_SOCK" =? "")%string eqn:Es;
      cbn; rewrite ?El, ?Et, ?Eu, ?Eg, ?Ed, ?Es; reflexivity.
  - intros H. rewrite !env_entry_app, H.
    destruct (getenv "LANG" =? "")%string eqn:El;
      destruct (getenv "TERM" =? "")%string eqn:Et;
      destruct (getenv "USER" =? "")%string eqn:Eu;
      destruct (getenv "LOGNAME" =? "")%string eqn:Eg;
      destruct (getenv "DISPLAY" =? "")%string eqn:Ed;
      destruct (getenv "SSH_AUTH_SOCK" =? "")%string eqn:Es;
      cbn; rewrite ?El, ?Et, ?Eu, ?Eg, ?Ed, ?Es; reflexivity.
Qed.

Lemma BuildEnv_effective_entries_witness :
  Exec.env_entry "SBOX_ACTIVE"
    (Runner.BuildEnv (fun _ => "") (fun s => s)
       {| Runner.ProjectRoot := "/srv/app";
          Runner.Config :=
            {| Config.Runtime := "python:3.10"; Config.Workdir := "/app";
               Config.Copy := []; Config.Mount := [];
               Config.Install := []; Config.Cmd := "python main.py";
               Config.Env := [("SBOX_ACTIVE", "0")] |};
          Runner.EnvDir := "/srv/app/.sbox/env";
          Runner.Rootfs := "/srv/app/.sbox/rootfs";
          Runner.SboxDir := "/srv/app/.sbox" |})
  = Some "SBOX_ACTIVE=0".
Proof.
  apply (proj1 (BuildEnv_effective_entries (fun _ => "") (fun s => s) _)).
  reflexivity.
Defined.

(** ** The logs directory *)

Lemma strip_suffix_eq suffix s :
  GoStrings.strip_suffix suffix s =
  if String.eqb s suffix then Some EmptyString
  else
    match s with
    | EmptyString => None
    | String c rest =>
        match GoStrings.strip_suffix suffix rest with
        | Some stem => Some (String c stem)
        | None => None
        end
    end.
Proof. destruct s; reflexivity. Qed.

Lemma strip_suffix_sound suffix s : forall stem,
  GoStrings.strip_suffix suffix s = Some stem -> s = (stem ++ suffix)%string.
Proof.
  induction s as [|c s IH]; intros stem; rewrite strip_suffix_eq.
  - destruct (String.eqb_spec "" suffix) as [<-|]; [|discriminate].
    now intros [= <-].
  - destruct (String.eqb_spec (String c s) suffix) as [<-|].
    + now intros [= <-].
    + destruct (GoStrings.strip_suffix suffix s) as [stem'|] eqn:E;
        [|discriminate].
      intros [= <-]. rewrite append_cons. f_equal. now apply IH.
Qed.

Lemma string_length_app (a b : string) :
  String.length (a ++ b) = String.length a + String.length b.
Proof.
  induction a as [|c a IH]; [reflexivity|].
  rewrite append_cons. simpl. now rewrite IH.
Qed.

Lemma strip_suffix_complete suffix stem :
  GoStrings.strip_suffix suffix (stem ++ suffix) = Some stem.
Proof.
  induction stem as [|c stem IH]; rewrite strip_suffix_eq.
  - rewrite append_empty_l, String.eqb_refl. reflexivity.
  - rewrite append_cons.
    destruct (String.eqb_spec (String c (stem ++ suffix)) suffix) as [E|_].
    + apply (f_equal String.length) in E. simpl in E.
      rewrite string_length_app in E. lia.
    + now rewrite IH.
Qed.

Lemma list_logs_names entries name :
  In name (LogDir.list_logs entries) <->
  exists entry, In entry entries /\ LogDir.entry_is_dir entry = false /\
                LogDir.entry_name entry = (name ++ ".log")%string.
Proof.
  induction entries as [|e entries IH]; simpl.
  - split; [tauto|]. now intros (? & [] & _).
  - unfold GoStrings.HasSuffix, GoStrings.TrimSuffix.
    destruct (LogDir.entry_is_dir e) eqn:Edir; simpl.
    + rewrite IH. split.
      * intros (x & ? & ?). exists x. auto.
      * intros (x & [<-|?] & Hd & ?); [congruence|]. exists x. auto.
    + destruct (GoStrings.strip_suffix ".log" (LogDir.entry_name e))
        as [stem|] eqn:Es; simpl.
      * apply strip_suffix_sound in Es. rewrite IH. split.
        -- intros [<-|(x & ? & ?)]; [exists e; auto | exists x; auto].
        -- intros (x & [<-|?] & Hd & Hn).
           ++ left. rewrite Es in Hn.
              assert (H : GoStrings.strip_suffix ".log" (stem ++ ".log")
                          = GoStrings.strip_suffix ".log" (name ++ ".log"))
                by now rewrite Hn.
              rewrite !strip_suffix_complete in H. congruence.
           ++ right. exists x. auto.
      * rewrite IH. split.
        -- intros (x & ? & ?). exists x. auto.
        -- intros (x & [<-|?] & Hd & Hn).
           ++ rewrite Hn, strip_suffix_complete in Es. discriminate.
           ++ exists x. auto.
Qed.

(** X27: [ListLogs] returns exactly the names [n] for which the logs
    directory holds an entry [n.log] that is not a directory; a missing
    directory gives no names. *)
Theorem ListLogs_names d names :
  LogDir.ListLogs d = Some names ->
  forall name,
    In name names <->
    exists entries entry,
      d = LogDir.Listing entries /\ In entry entries /\
      LogDir.entry_is_dir entry = false /\
      LogDir.entry_name entry = (name ++ ".log")%string.
Proof.
  destruct d as [| |entries]; simpl; [|discriminate|]; intros [= <-] name.
  - split; [intros []|]. intros (? & ? & ? & _). discriminate.
  - rewrite list_logs_names. split.
    + intros (e & ? & ? & ?). exists entries, e. auto.
    + intros (es & e & [= <-] & ? & ? & ?). exists e. auto.
Qed.

Lemma ListLogs_names_witness :
  In "web" ["web"; "api"] <->
  exists entries entry,
    LogDir.Listing
      [ {| LogDir.entry_name := "web.log"; LogDir.entry_is_dir := false;
           LogDir.entry_mtime := Some 5%Z; LogDir.entry_removable := true |};
        {| LogDir.entry_name := "old.log"; LogDir.entry_is_dir := true;
           LogDir.entry_mtime := Some 1%Z; LogDir.entry_removable := true |};
        {| LogDir.entry_name := "notes.txt"; LogDir.entry_is_dir := false;
           LogDir.entry_mtime := Some 2%Z; LogDir.entry_removable := true |};
        {| LogDir.entry_name := "api.log"; LogDir.entry_is_dir := false;
           LogDir.entry_mtime := None; LogDir.entry_removable := false |} ]
    = LogDir.Listing entries /\ In entry entries /\
    LogDir.entry_is_dir entry = false /\
    LogDir.entry_name entry = ("web" ++ ".log")%string.
Proof.
  apply (ListLogs_names _ ["web"; "api"]). reflexivity.
Defined.

Lemma clean_loop_filter cutoff entries : forall removed,
  (0 <= removed)%Z ->
  (removed + Z.of_nat (length entries) <= GoInt.max_int)%Z ->
  LogDir.clean_loop cutoff entries removed =
  (List.filter (fun e => negb (LogDir.doomed cutoff e)) entries,
   (removed + Z.of_nat (length (List.filter (LogDir.doomed cutoff) entries)))%Z).
Proof.
  induction entries as [|e entries IH]; intros removed H0 Hmax.
  - simpl. f_equal. lia.
  - destruct e as [nm dir mt rm].
    cbn [LogDir.clean_loop List.filter]. cbn [length] in Hmax.
    unfold LogDir.doomed.
    cbn [LogDir.entry_is_dir LogDir.entry_mtime LogDir.entry_removable].
    destruct dir; cbn [negb andb].
    { rewrite IH by lia. reflexivity. }
    destruct mt as [mtime|]; cbn [negb andb].
    2: { rewrite IH by lia. reflexivity. }
    destruct (mtime <? cutoff)%Z; cbn [negb andb].
    2: { rewrite IH by lia. reflexivity. }
    destruct rm; cbn [negb andb].
    2: { rewrite IH by lia. reflexivity. }
    rewrite wrap_in_range
      by (unfold GoInt.in_range, GoInt.min_int, GoInt.max_int in *; lia).
    rewrite IH by (unfold GoInt.max_int in *; lia). f_equal. cbn [length].
    unfold LogDir.doomed. lia.
Qed.

(** X28: [CleanOldLogs] removes exactly the entries of the logs directory
    that are not directories, were last modified before [now - maxAge] and
    can be removed, whatever their names, and returns how many they are;
    the other entries stay, in their order. *)
Theorem CleanOldLogs_removes now maxAge entries :
  (GoInt.min_int < maxAge <= GoInt.max_int)%Z ->
  (Z.of_nat (length entries) <= GoInt.max_int)%Z ->
  let old := LogDir.doomed (now - maxAge) in
  LogDir.CleanOldLogs now maxAge (LogDir.Listing entries) =
  (LogDir.Listing (List.filter (fun e => negb (old e)) entries),
   Some (Z.of_nat (length (List.filter old entries)))).
Proof.
  intros Hage Hlen old. unfold LogDir.CleanOldLogs.
  rewrite wrap_in_range
    by (unfold GoInt.in_range, GoInt.min_int, GoInt.max_int in *; lia).
  replace (now + - maxAge)%Z with (now - maxAge)%Z by lia.
  rewrite clean_loop_filter by lia. reflexivity.
Qed.

Lemma CleanOldLogs_removes_witness :
  LogDir.CleanOldLogs 100 40
    (LogDir.Listing
       [ {| LogDir.entry_name := "web.log"; LogDir.entry_is_dir := false;
            LogDir.entry_mtime := Some 59%Z; LogDir.entry_removable := true |};
         {| LogDir.entry_name := "archive"; LogDir.entry_is_dir := true;
            LogDir.entry_mtime := Some 1%Z; LogDir.entry_removable := true |};
         {| LogDir.entry_name := "notes.txt"; LogDir.entry_is_dir := false;
            LogDir.entry_mtime := Some 2%Z; LogDir.entry_removable := true |};
         {| LogDir.entry_name := "api.log"; LogDir.entry_is_dir := false;
            LogDir.entry_mtime := Some 60%Z; LogDir.entry_removable := true |};
         {| LogDir.entry_name := "db.log"; LogDir.entry_is_dir := false;
            LogDir.entry_mtime := Some 3%Z; LogDir.entry_removable := false |} ])
  = (LogDir.Listing
       [ {| LogDir.entry_name := "archive"; LogDir.entry_is_dir := true;
            LogDir.entry_mtime := Some 1%Z; LogDir.entry_removable := true |};
         {| LogDir.entry_name := "api.log"; LogDir.entry_is_dir := false;
            LogDir.entry_mtime := Some 60%Z; LogDir.entry_removable := true |};
         {| LogDir.entry_name := "db.log"; LogDir.entry_is_dir := false;
            LogDir.entry_mtime := Some 3%Z; LogDir.entry_removable := false |} ],
     Some 2%Z).
Proof.
  apply (CleanOldLogs_removes 100 40); vm_compute; intuition discriminate.
Defined.

(** ** The unit of [FormatBytes] *)

Lemma div_lt_inv (a b q : Z) :
  (0 < b)%Z -> (a / b < q)%Z -> (a < b * q)%Z.
Proof.
  intros Hb H. pose proof (Z.div_mod a b ltac:(lia)).
  pose proof (Z.mod_pos_bound a b Hb). nia.
Qed.

Lemma div_ge_inv (a b q : Z) :
  (0 < b)%Z -> (q <= a / b)%Z -> (b * q <= a)%Z.
Proof.
  intros Hb H. pose proof (Z.div_mod a b ltac:(lia)).
  pose proof (Z.mod_pos_bound a b Hb). nia.
Qed.

Lemma scale_spec bytes : forall fuel n div k,
  (0 <= k)%Z ->
  div = (1024 ^ (k + 1))%Z ->
  n = (bytes / div)%Z ->
  (div <= bytes <= GoInt.max_int)%Z ->
  (n < 1024 ^ Z.of_nat (S fuel))%Z ->
  exists k',
    Format.scale fuel n div k = Some ((1024 ^ (k' + 1))%Z, k') /\
    (k <= k')%Z /\ (1024 ^ (k' + 1) <= bytes < 1024 ^ (k' + 2))%Z.
Proof.
  induction fuel as [|fuel IH]; intros n div k Hk Hdiv Hn Hb Hfuel.
  - assert (Hlt : (n < 1024)%Z)
      by (change (1024 ^ Z.of_nat 1)%Z with 1024%Z in Hfuel; lia).
    simpl. unfold Format.unit.
    destruct (Z.leb_spec 1024 n) as [?|_]; [lia|].
    exists k. subst div. repeat split; try lia.
    replace (k + 2)%Z with (Z.succ (k + 1)) by lia.
    rewrite Z.pow_succ_r by lia.
    assert (Hpos : (0 < 1024 ^ (k + 1))%Z) by (apply Z.pow_pos_nonneg; lia).
    subst n. apply div_lt_inv in Hlt; lia.
  - assert (Hpos : (0 < div)%Z) by (subst div; apply Z.pow_pos_nonneg; lia).
    cbn [Format.scale]. unfold Format.unit.
    destruct (Z.leb_spec 1024 n) as [Hge|Hlt].
    + assert (Hmul : (div * 1024 <= bytes)%Z).
      { subst n. apply div_ge_inv in Hge; lia. }
      assert (Hk63 : (k < 63)%Z).
      { destruct (Z.lt_ge_cases k 63) as [?|Hbig]; [assumption|exfalso].
        assert ((1024 ^ 64 <= 1024 ^ (k + 1))%Z)
          by (apply Z.pow_le_mono_r; lia).
        unfold GoInt.max_int in Hb.
        assert ((1024 ^ 64 > 2 ^ 63)%Z) by reflexivity. lia. }
      rewrite !wrap_in_range
        by (unfold GoInt.in_range, GoInt.min_int, GoInt.max_int in *; lia).
      destruct (IH (Z.quot n 1024) (div * 1024)%Z (k + 1)%Z)
        as (k' & Hs & Hk' & Hr).
      * lia.
      * subst div. replace (k + 1 + 1)%Z with (Z.succ (k + 1)) by lia.
        rewrite Z.pow_succ_r by lia. lia.
      * rewrite Z.quot_div_nonneg by lia. subst n.
        rewrite Z.div_div by lia. reflexivity.
      * lia.
      * rewrite Z.quot_div_nonneg by lia.
        apply Z.div_lt_upper_bound; [lia|].
        replace (Z.of_nat (S (S fuel))) with (Z.succ (Z.of_nat (S fuel)))
          in Hfuel by lia.
        rewrite Z.pow_succ_r in Hfuel by lia. lia.
      * exists k'. split; [exact Hs|]. lia.
    + exists k. subst div. repeat split; try lia.
      replace (k + 2)%Z with (Z.succ (k + 1)) by lia.
      rewrite Z.pow_succ_r by lia.
      subst n. apply div_lt_inv in Hlt; lia.
Qed.

(** X29: for every size of at least 1024 bytes that an int64 holds,
    [FormatBytes] ends its loop without overflow and without indexing
    outside of "KMGTPE": it prints the size over the largest power of 1024
    that does not exceed it, with the letter of that power. *)
Theorem FormatBytes_unit bytes :
  (1024 <= bytes <= GoInt.max_int)%Z ->
  exists k letter,
    (0 <= k <= 5)%Z /\
    String.get (Z.to_nat k) "KMGTPE" = Some letter /\
    Format.FormatBytes bytes =
      Some (Format.Scaled bytes (1024 ^ (k + 1)) letter) /\
    (1024 ^ (k + 1) <= bytes < 1024 ^ (k + 2))%Z.
Proof.
  intros Hb. unfold Format.FormatBytes, Format.unit.
  destruct (Z.ltb_spec bytes 1024) as [?|_]; [lia|].
  destruct (scale_spec bytes 64 (Z.quot bytes 1024) 1024 0)
    as (k & Hs & Hk & Hr).
  - lia.
  - reflexivity.
  - rewrite Z.quot_div_nonneg by lia. reflexivity.
  - lia.
  - rewrite Z.quot_div_nonneg by lia.
    apply Z.div_lt_upper_bound; [lia|].
    unfold GoInt.max_int in Hb.
    assert ((2 ^ 63 < 1024 * 1024 ^ Z.of_nat 65)%Z) by reflexivity. lia.
  - unfold Format.unit in Hs. rewrite Hs.
    assert (Hk5 : (k <= 5)%Z).
    { destruct (Z.le_gt_cases k 5) as [?|Hbig]; [assumption|exfalso].
      assert ((1024 ^ 7 <= 1024 ^ (k + 1))%Z)
        by (apply Z.pow_le_mono_r; lia).
      unfold GoInt.max_int in Hb.
      assert ((2 ^ 63 < 1024 ^ 7)%Z) by reflexivity. lia. }
    assert (Hcase : (k = 0 \/ k = 1 \/ k = 2 \/ k = 3 \/ k = 4 \/ k = 5)%Z)
      by lia.
    exists k.
    destruct Hcase as [->|[->|[->|[->|[->| ->]]]]]; simpl Z.to_nat;
      cbn [String.get Pos.to_nat Pos.iter_op Nat.add];
      eexists; (split; [lia|]); (split; [reflexivity|]);
      (split; [reflexivity|]); exact Hr.
Qed.

Lemma FormatBytes_unit_witness :
  exists k letter,
    (0 <= k <= 5)%Z /\
    String.get (Z.to_nat k) "KMGTPE" = Some letter /\
    Format.FormatBytes 5242880 =
      Some (Format.Scaled 5242880 (1024 ^ (k + 1)) letter) /\
    (1024 ^ (k + 1) <= 5242880 < 1024 ^ (k + 2))%Z.
Proof.
  apply (FormatBytes_unit 5242880). vm_compute. intuition discriminate.
Defined.
